(** * grpc-go: status errors, the attribute store, connectivity states
      and the logger

    A shallow embedding of four packages of the repository:

    - [status]       (Error, Newf, FromProto, FromError, Convert, Code,
                      FromContextError), over the [Status] value of
                      [internal/status];
    - [attributes]   (New, WithValues, Value), a key/value store held
                      behind a pointer;
    - [connectivity] (State and its String method);
    - [grpclog]      (the default LoggerV2: NewLoggerV2,
                      NewLoggerV2WithVerbosity, newLoggerV2 and the methods
                      of loggerT).

    Go values passed around as [interface{}] are modelled by
    [golang.iface]; Go's [fmt.Sprintf], [fmt.Sprint] and [fmt.Sprintln] by
    the functions of [fmt]; [strconv.Atoi], [io.Writer] and [log.Logger]
    by [strconv], [io] and [log].

    Two modules take up what the values of [status] and [attributes] leave
    out: [status_calls] has the methods of an error as calls that may
    panic, and [attributes_any] has the attribute store over keys that
    cannot be hashed and keys that are not equal to themselves. *)

From Stdlib Require Import Ascii.
From stdpp Require Import gmap strings list pretty.

Open Scope string_scope.

(* ================================================================== *)
(** * Go values behind [interface{}] *)
(* ================================================================== *)

Module golang.

(** The dynamic values the model passes as [interface{}]: the nil
    interface, [bool], [int] and [string].  All of them are comparable, so
    all of them can be map keys (the attribute store asks for hashable
    keys: "Key必须可以hashable"); slices, maps and functions, which Go's map
    rejects at run time, are not part of the model. *)
Inductive iface : Type :=
| INil
| IBool (b : bool)
| IInt (z : Z)
| IString (s : string).

#[global] Instance iface_eq_dec : EqDecision iface.
Proof. solve_decision. Defined.

Definition iface_enc (v : iface) : unit + bool + Z + string :=
  match v with
  | INil => inl (inl (inl tt))
  | IBool b => inl (inl (inr b))
  | IInt z => inl (inr z)
  | IString s => inr s
  end.

Definition iface_dec (x : unit + bool + Z + string) : iface :=
  match x with
  | inl (inl (inl _)) => INil
  | inl (inl (inr b)) => IBool b
  | inl (inr z) => IInt z
  | inr s => IString s
  end.

Definition iface_dec_enc (v : iface) : iface_dec (iface_enc v) = v :=
  match v with
  | INil => eq_refl
  | IBool _ => eq_refl
  | IInt _ => eq_refl
  | IString _ => eq_refl
  end.

#[global] Instance iface_countable : Countable iface :=
  inj_countable' iface_enc iface_dec iface_dec_enc.

#[global] Instance iface_inhabited : Inhabited iface := populate INil.

End golang.

(* ================================================================== *)
(** * fmt.Sprintf *)
(* ================================================================== *)

Module fmt.
Import golang.

(** Go's [fmt.Sprintf] (standard library) on the directives the sources
    use, [%v], [%s] and [%d], with [%t] and [%%], over ASCII formats and
    the operands of [iface].  Flags, width, precision and argument indexes
    are not modelled. *)

(** [reflect.TypeOf(arg).String()] *)
Definition type_name (v : iface) : string :=
  match v with
  | INil => "<nil>"
  | IBool _ => "bool"
  | IInt _ => "int"
  | IString _ => "string"
  end.

(** The operand under [%v]. *)
Definition print_v (v : iface) : string :=
  match v with
  | INil => "<nil>"
  | IBool b => if b then "true" else "false"
  | IInt z => pretty z
  | IString s => s
  end.

(** [pp.badVerb]: a verb that does not fit its operand. *)
Definition bad_verb (c : ascii) (v : iface) : string :=
  match v with
  | INil => "%!" +:+ String c "(<nil>)"
  | _ => "%!" +:+ String c ("(" +:+ type_name v +:+ "=" +:+ print_v v +:+ ")")
  end.

(** [pp.printArg] for one operand and one verb. *)
Definition print_arg (c : ascii) (v : iface) : string :=
  if decide (c = "v"%char) then print_v v
  else match v with
       | IString s => if decide (c = "s"%char) then s else bad_verb c v
       | IInt z => if decide (c = "d"%char) then pretty z else bad_verb c v
       | IBool b => if decide (c = "t"%char) then print_v v else bad_verb c v
       | INil => bad_verb c v
       end.

(** The operands left over when the format is used up. *)
Fixpoint extra_args (a : list iface) : string :=
  match a with
  | [] => ""
  | v :: a' =>
      (match v with
       | INil => "<nil>"
       | _ => type_name v +:+ "=" +:+ print_v v
       end) +:+
      (match a' with [] => "" | _ => ", " +:+ extra_args a' end)
  end.

Definition extra (a : list iface) : string :=
  match a with
  | [] => ""
  | _ => "%!(EXTRA " +:+ extra_args a +:+ ")"
  end.

(** [pp.doPrintf] *)
Fixpoint doPrintf (format : string) (a : list iface) : string :=
  match format with
  | "" => extra a
  | String c rest =>
      if decide (c = "%"%char) then
        match rest with
        | "" => "%!(NOVERB)" +:+ extra a
        | String verb rest' =>
            if decide (verb = "%"%char) then String "%" (doPrintf rest' a)
            else match a with
                 | [] => "%!" +:+ String verb "(MISSING)" +:+ doPrintf rest' []
                 | v :: a' => print_arg verb v +:+ doPrintf rest' a'
                 end
        end
      else String c (doPrintf rest a)
  end.

Definition Sprintf (format : string) (a : list iface) : string :=
  doPrintf format a.

(** [reflect.TypeOf(arg).Kind() == reflect.String], false for nil. *)
Definition is_string (v : iface) : bool :=
  match v with
  | IString _ => true
  | _ => false
  end.

(** [pp.doPrint]: each operand under [%v], with a space between two
    operands when neither is a string.  [first] stands for [argNum == 0]. *)
Fixpoint doPrint (first prevString : bool) (a : list iface) : string :=
  match a with
  | [] => ""
  | arg :: rest =>
      let isString := is_string arg in
      (if negb first && negb isString && negb prevString then " " else "")
      +:+ print_v arg +:+ doPrint false isString rest
  end.

Definition Sprint (a : list iface) : string := doPrint true false a.

Definition newline : string := String "010" "".

(** [pp.doPrintln]: a space between any two operands, a newline last. *)
Fixpoint doPrintln (first : bool) (a : list iface) : string :=
  match a with
  | [] => newline
  | arg :: rest =>
      (if first then "" else " ") +:+ print_v arg +:+ doPrintln false rest
  end.

Definition Sprintln (a : list iface) : string := doPrintln true a.

End fmt.

(* ================================================================== *)
(** * codes, the wire message, and internal/status *)
(* ================================================================== *)

Module codes.

(** Modelled from the spec: the [codes] package is not among the sources.
    A status code is "an opaque totally-ordered integer id"; codes outside
    the declared members can be built without validation.  The members are
    numbered from [OK = 0] upward in the order the spec lists them. *)
Abbreviation Code := Z (only parsing).

Definition OK : Code := 0.
Definition Canceled : Code := 1.
Definition Unknown : Code := 2.
Definition InvalidArgument : Code := 3.
Definition DeadlineExceeded : Code := 4.
Definition NotFound : Code := 5.
Definition AlreadyExists : Code := 6.
Definition PermissionDenied : Code := 7.
Definition ResourceExhausted : Code := 8.
Definition FailedPrecondition : Code := 9.
Definition Aborted : Code := 10.
Definition OutOfRange : Code := 11.
Definition Unimplemented : Code := 12.
Definition Internal : Code := 13.
Definition Unavailable : Code := 14.
Definition DataLoss : Code := 15.
Definition Unauthenticated : Code := 16.

End codes.

Module spb.

(** Modelled from the spec: the wire record of a status (section 6), a
    code, a message and an ordered sequence of typed-and-tagged opaque byte
    blobs.  The generated protobuf package is not among the sources. *)
Record Any : Type := mkAny {
  TypeUrl : string;
  Value : list Byte.byte
}.

Record Status : Type := mkStatus {
  Code : Z;
  Message : string;
  Details : list Any
}.

End spb.

Module internal_status.

(** Modelled from the spec: [internal/status] is not among the sources.
    A Status is an immutable value of a code, a message and an ordered
    sequence of opaque detail records, kept as the tagged blobs the wire
    carries (section 9).  Equality of two Status values is equality of the
    three fields. *)
Record Status : Type := mkStatus {
  code : codes.Code;
  message : string;
  details : list spb.Any
}.

(** A [*Status] that may be nil is an [option Status]; a [*Status] that a
    constructor has just made is the [Status] it points to. *)

(** Modelled from the spec: [New(code, message)] builds a Status with
    empty details and validates nothing. *)
Definition New (c : codes.Code) (msg : string) : Status :=
  {| code := c; message := msg; details := [] |}.

(** Modelled from the spec: the wire projection maps the three fields to
    the three fields of the wire record, the code by its numeric value. *)
Definition Proto (s : Status) : spb.Status :=
  {| spb.Code := code s; spb.Message := message s; spb.Details := details s |}.

(** Modelled from the spec: the reconstruction from the wire record, code,
    message and detail blobs. *)
Definition FromProto (p : spb.Status) : Status :=
  {| code := spb.Code p; message := spb.Message p; details := spb.Details p |}.

(** Modelled from the spec: the code accessor [(s *Status).Code()].  It
    "must never fail", and the absent Status stands for success, so a nil
    receiver reads as [OK]. *)
Definition Status_Code (s : option Status) : codes.Code :=
  match s with
  | None => codes.OK
  | Some s => code s
  end.

(** Go's builtin [error] as this package observes it.  A non-nil error is
    a dynamic value: its concrete type and identity (what [==] on
    interfaces compares: a pointer's address, or the one value of an empty
    struct type), the text of its [Error()] method, and its method
    [GRPCStatus() *Status] when the concrete type has one. *)
Record dyn_error : Type := mkError {
  dyn_type : string;
  dyn_id : N;
  err_Error : string;
  err_GRPCStatus : option (option Status)
}.

(** [None] is the nil error. *)
Definition error : Type := option dyn_error.

(** [e1 == e2] on two error interfaces. *)
Definition error_eq (e1 e2 : error) : bool :=
  match e1, e2 with
  | None, None => true
  | Some a, Some b =>
      bool_decide (dyn_type a = dyn_type b) && bool_decide (dyn_id a = dyn_id b)
  | _, _ => false
  end.

Section Err.

(** The display names of the codes, [codes.Code.String]; the table is not
    among the sources, and nothing below depends on its entries. *)
Variable CodeString : codes.Code → string.

(** Modelled from the spec: the text of a status error "includes the
    code's canonical name and the message". *)
Definition Error_text (s : Status) : string :=
  fmt.Sprintf "rpc error: code = %s desc = %s"
    [golang.IString (CodeString (code s)); golang.IString (message s)].

(** Modelled from the spec: [(s *Status).Err()] is the absence-of-error
    value when the code is [OK]; otherwise a present error that carries
    the Status recoverably, through [GRPCStatus].  The identity of the
    error made is not observed by this package. *)
Definition Err (s : Status) : error :=
  if decide (code s = codes.OK) then None
  else Some {| dyn_type := "*status.Error"; dyn_id := 0;
               err_Error := Error_text s;
               err_GRPCStatus := Some (Some s) |}.

End Err.

End internal_status.

(* ================================================================== *)
(** * context: the two cancellation signals *)
(* ================================================================== *)

Module context.
Import internal_status.

(** Go's [context.DeadlineExceeded], the one value of the empty struct
    type [context.deadlineExceededError]. *)
Definition DeadlineExceeded : error :=
  Some {| dyn_type := "context.deadlineExceededError"; dyn_id := 0;
          err_Error := "context deadline exceeded";
          err_GRPCStatus := None |}.

(** Go's [context.Canceled], one particular [errors.New] pointer. *)
Definition Canceled : error :=
  Some {| dyn_type := "*errors.errorString"; dyn_id := 1;
          err_Error := "context canceled";
          err_GRPCStatus := None |}.

End context.

(* ================================================================== *)
(** * package status *)
(* ================================================================== *)

Module status.
Import internal_status.

(** [type Status = status.Status] *)
Abbreviation Status := internal_status.Status (only parsing).

Definition New (c : codes.Code) (msg : string) : Status :=
  internal_status.New c msg.

Definition Newf (c : codes.Code) (format : string) (a : list golang.iface)
  : Status :=
  New c (fmt.Sprintf format a).

Definition FromProto (s : spb.Status) : Status :=
  internal_status.FromProto s.

Section Errors.
Variable CodeString : codes.Code → string.

Definition Error (c : codes.Code) (msg : string) : error :=
  Err CodeString (New c msg).

Definition Errorf (c : codes.Code) (format : string) (a : list golang.iface)
  : error :=
  Error c (fmt.Sprintf format a).

Definition ErrorProto (s : spb.Status) : error :=
  Err CodeString (FromProto s).

End Errors.

(** The type assertion [err.(interface{ GRPCStatus() *Status })] asks only
    whether the dynamic value has the method, whatever its type. *)
Definition FromError (err : error) : option Status * bool :=
  match err with
  | None => (None, true)
  | Some e =>
      match err_GRPCStatus e with
      | Some se => (se, true)
      | None => (Some (New codes.Unknown (err_Error e)), false)
      end
  end.

Definition Convert (err : error) : option Status :=
  let '(s, _) := FromError err in s.

Definition Code (err : error) : codes.Code :=
  match err with
  | None => codes.OK
  | Some e =>
      match err_GRPCStatus e with
      | Some se => Status_Code se
      | None => codes.Unknown
      end
  end.

(** [switch err] compares [err] with each case by [==], in order. *)
Definition FromContextError (err : error) : option Status :=
  match err with
  | None => None
  | Some e =>
      if error_eq err context.DeadlineExceeded then
        Some (New codes.DeadlineExceeded (err_Error e))
      else if error_eq err context.Canceled then
        Some (New codes.Canceled (err_Error e))
      else Some (New codes.Unknown (err_Error e))
  end.

End status.

(* ================================================================== *)
(** * package attributes *)
(* ================================================================== *)

Module attributes.
Import golang.

(** [type Attributes struct { m map[interface{}]interface{} }].  The map
    of an Attributes is made with it and never handed to another one, so
    the struct and its map are one object of the store. *)
Record Attributes : Type := mkAttributes {
  m : gmap iface iface
}.

(** Addresses of the allocated Attributes; a [*Attributes] is [None] (nil)
    or an address. *)
Abbreviation loc := positive (only parsing).
Abbreviation ptr := (option positive) (only parsing).
Abbreviation heap := (gmap positive Attributes) (only parsing).

(** A call returns a value or panics; either way it leaves a store. *)
Inductive outcome (A : Type) : Type :=
| Returns (x : A) (h : heap)
| Panics (msg : string) (h : heap).
Arguments Returns {A} x h.
Arguments Panics {A} msg h.

Definition M (A : Type) : Type := heap → outcome A.

#[global] Instance M_ret : MRet M := λ A x h, Returns x h.

#[global] Instance M_bind : MBind M := λ A B k c h,
  match c h with
  | Returns x h' => k x h'
  | Panics msg h' => Panics msg h'
  end.

Definition panic {A : Type} (msg : string) : M A := λ h, Panics msg h.

Definition nil_dereference : string :=
  "runtime error: invalid memory address or nil pointer dereference".

Definition index_out_of_range : string :=
  "runtime error: index out of range".

(** [&Attributes{m: make(...)}]: a new object at an unused address. *)
Definition alloc (a : Attributes) : M loc :=
  λ h, let l := fresh (dom h) in Returns l (<[l := a]> h).

(** Reading through a pointer, as in [a.m]. *)
Definition load (a : ptr) : M Attributes :=
  λ h, match a with
       | None => Panics nil_dereference h
       | Some l =>
           match h !! l with
           | Some x => Returns x h
           | None => Panics nil_dereference h
           end
       end.

(** [n.m[k] = v] *)
Definition map_store (n : loc) (k v : iface) : M unit :=
  λ h, match h !! n with
       | Some x => Returns tt (<[n := mkAttributes (<[k := v]> (m x))]> h)
       | None => Panics nil_dereference h
       end.

(** [kvs[i]] *)
Definition index (kvs : list iface) (i : nat) : M iface :=
  match kvs !! i with
  | Some v => mret v
  | None => panic index_out_of_range
  end.

(** [for ; i < len(kvs)/2; i++ { n.m[kvs[i*2]] = kvs[i*2+1] }], with
    [todo] the iterations left, [len(kvs)/2 - i]. *)
Fixpoint write_kvs (n : loc) (kvs : list iface) (i todo : nat) : M unit :=
  match todo with
  | 0 => mret tt
  | S todo' =>
      k ← index kvs (i * 2);
      v ← index kvs (i * 2 + 1);
      map_store n k v;;
      write_kvs n kvs (S i) todo'
  end.

(** [for k, v := range a.m { n.m[k] = v }] over the entries of [a.m] in
    the order [entries] lists them. *)
Fixpoint range_copy (n : loc) (entries : list (iface * iface)) : M unit :=
  match entries with
  | [] => mret tt
  | (k, v) :: rest => map_store n k v;; range_copy n rest
  end.

Definition unexpected_input (kvs : list iface) : string :=
  fmt.Sprintf "attributes.New called with unexpected input: len(kvs) = %v"
    [IInt (Z.of_nat (length kvs))].

Definition New (kvs : list iface) : M ptr :=
  if negb (Nat.eqb (length kvs mod 2) 0) then panic (unexpected_input kvs)
  else
    a ← alloc (mkAttributes ∅);
    write_kvs a kvs 0 (length kvs / 2);;
    mret (Some a).

Definition WithValues (a : ptr) (kvs : list iface) : M ptr :=
  if negb (Nat.eqb (length kvs mod 2) 0) then panic (unexpected_input kvs)
  else
    load a;;
    n ← alloc (mkAttributes ∅);
    x ← load a;
    range_copy n (map_to_list (m x));;
    write_kvs n kvs 0 (length kvs / 2);;
    mret (Some n).

Definition Value (a : ptr) (key : iface) : M iface :=
  x ← load a;
  mret (default INil (m x !! key)).

(** What an argument list [key1, value1, key2, value2, ...] says about a
    key, by positions: [latest kvs key v] when some pair of [kvs] gives
    [key] the value [v] and no later pair has [key]; [unset kvs key] when
    no pair has [key]. *)
Definition latest (kvs : list iface) (key v : iface) : Prop :=
  ∃ j : nat,
    kvs !! (j * 2)%nat = Some key ∧ kvs !! (j * 2 + 1)%nat = Some v ∧
    ∀ j' : nat, (j < j')%nat → kvs !! (j' * 2)%nat ≠ Some key.

Definition unset (kvs : list iface) (key : iface) : Prop :=
  ∀ j : nat, kvs !! (j * 2)%nat ≠ Some key.

(** The map that writing the pairs [key1, value1, key2, value2, ...] in
    order leaves, starting from [m0]; a last key without a value is no
    pair. *)
Fixpoint set_pairs (m0 : gmap iface iface) (kvs : list iface)
  : gmap iface iface :=
  match kvs with
  | k :: v :: rest => set_pairs (<[k := v]> m0) rest
  | _ => m0
  end.

(** The keys of the pairs of an argument list. *)
Fixpoint keys_of (kvs : list iface) : gset iface :=
  match kvs with
  | k :: _ :: rest => {[ k ]} ∪ keys_of rest
  | _ => ∅
  end.

End attributes.

(* ================================================================== *)
(** * package connectivity *)
(* ================================================================== *)

Module connectivity.

(** [type State int] *)
Abbreviation State := Z (only parsing).

Definition Idle : State := 0.
Definition Connecting : State := 1.
Definition Ready : State := 2.
Definition TransientFailure : State := 3.
Definition Shutdown : State := 4.

(** [(s State).String()], with the calls it makes to [grpclog.Errorf],
    each as the format and the operands it passes. *)
Definition String (s : State) : string * list (string * list golang.iface) :=
  if decide (s = Idle) then ("IDLE", [])
  else if decide (s = Connecting) then ("CONNECTING", [])
  else if decide (s = Ready) then ("READY", [])
  else if decide (s = TransientFailure) then ("TRANSIENT_FAILURE", [])
  else if decide (s = Shutdown) then ("SHUTDOWN", [])
  else ("Invalid-State",
        [("unknown connectivity state: %d", [golang.IInt s])]).

End connectivity.

(* ================================================================== *)
(** * strconv.Atoi, io.Writer and log.Logger *)
(* ================================================================== *)

Module strconv.

(** The value of a decimal digit. *)
Definition digit (c : ascii) : option Z :=
  let n := Z.of_nat (nat_of_ascii c) in
  if decide (48 ≤ n ≤ 57)%Z then Some (n - 48)%Z else None.

Fixpoint digits (acc : Z) (s : string) : option Z :=
  match s with
  | "" => Some acc
  | String c rest =>
      match digit c with
      | Some d => digits (acc * 10 + d) rest
      | None => None
      end
  end.

(** Go's [strconv.Atoi] on a 64-bit [int], [None] for an error: an
    optional sign, then one decimal digit or more and nothing else, the
    value within the range of [int]. *)
Definition Atoi (s : string) : option Z :=
  match s with
  | "" => None
  | String c rest =>
      let neg := bool_decide (c = "-"%char) in
      let body := if decide (c = "-"%char ∨ c = "+"%char) then rest else s in
      match body with
      | "" => None
      | _ =>
          match digits 0 body with
          | Some n =>
              let x := (if neg then - n else n)%Z in
              if decide (- 2 ^ 63 ≤ x ≤ 2 ^ 63 - 1)%Z then Some x else None
          | None => None
          end
      end
  end.

End strconv.

Module io.

(** An [io.Writer]: [ioutil.Discard]; a destination that takes what is
    written to it (a file such as [os.Stderr], a buffer); a destination
    whose [Write] takes the first [n] bytes at most and returns an error;
    or the [io.MultiWriter] of some writers. *)
#[warnings="-register-all"]
Inductive Writer : Type :=
| Discard
| Dest (d : N)
| Broken (d : N) (n : nat)
| MultiWriter (ws : list Writer).

(** [os.Stderr], file descriptor 2. *)
Definition Stderr : Writer := Dest 2.

(** [w.Write(p)]: what each destination took, in order, and whether the
    error returned is nil.  A multi-writer writes to each of its writers
    in turn and stops at the first one that returns an error. *)
Fixpoint Write (w : Writer) (p : string) : list (N * string) * bool :=
  match w with
  | Discard => ([], true)
  | Dest d => ([(d, p)], true)
  | Broken d n => ([(d, String.substring 0 n p)], false)
  | MultiWriter ws =>
      (fix each (ws : list Writer) : list (N * string) * bool :=
         match ws with
         | [] => ([], true)
         | w' :: rest =>
             let '(taken, ok) := Write w' p in
             if ok then
               let '(taken', ok') := each rest in ((taken ++ taken')%list, ok')
             else (taken, false)
         end) ws
  end.

End io.

Module log.

(** A [*log.Logger] made by [log.New(out, prefix, log.LstdFlags)]; the
    flags are the same for every logger of the package. *)
Record Logger : Type := New {
  out : io.Writer;
  prefix : string
}.

(** [len(s) == 0 || s[len(s)-1] != '\n'] *)
Fixpoint needs_newline (s : string) : bool :=
  match s with
  | "" => true
  | String c "" => negb (bool_decide (c = "010"%char))
  | String _ rest => needs_newline rest
  end.

(** The line of one log entry: the prefix, the date and time of the call
    ([stamp], as [LstdFlags] lays it out), the text, and a newline when
    the text has none at its end. *)
Definition line (prefix stamp s : string) : string :=
  prefix +:+ stamp +:+ s +:+ (if needs_newline s then fmt.newline else "").

(** [l.Output(calldepth, s)]: one write of the line to [l.out].  The
    callers in [grpclog] drop the error it returns. *)
Definition Output (l : Logger) (stamp s : string) : list (N * string) :=
  (io.Write (out l) (line (prefix l) stamp s)).1.

Definition Print (l : Logger) (stamp : string) (a : list golang.iface)
  : list (N * string) :=
  Output l stamp (fmt.Sprint a).

Definition Println (l : Logger) (stamp : string) (a : list golang.iface)
  : list (N * string) :=
  Output l stamp (fmt.Sprintln a).

Definition Printf (l : Logger) (stamp format : string)
    (a : list golang.iface) : list (N * string) :=
  Output l stamp (fmt.Sprintf format a).

End log.

(* ================================================================== *)
(** * package grpclog *)
(* ================================================================== *)

Module grpclog.
Import golang.

Definition infoLog : nat := 0.
Definition warningLog : nat := 1.
Definition errorLog : nat := 2.
Definition fatalLog : nat := 3.

Definition severityName : list string :=
  ["INFO"; "WARNING"; "ERROR"; "FATAL"].

(** [type loggerT struct { m []*log.Logger; v int }] *)
Record loggerT : Type := mkLoggerT {
  m : list log.Logger;
  v : Z
}.

(** What a call of a logging method does: it returns after its writes,
    ends the process after them ([os.Exit]), or panics. *)
Inductive effect : Type :=
| Done (writes : list (N * string))
| Exited (code : Z) (writes : list (N * string))
| Panicked (msg : string).

Definition NewLoggerV2WithVerbosity (infoW warningW errorW : io.Writer)
    (v : Z) : loggerT :=
  let m := [] in
  let m := (m ++ [log.New infoW (severityName !!! infoLog +:+ ": ")])%list in
  let m := (m ++ [log.New (io.MultiWriter [infoW; warningW])
                    (severityName !!! warningLog +:+ ": ")])%list in
  let ew := io.MultiWriter [infoW; warningW; errorW] in
  let m := (m ++ [log.New ew (severityName !!! errorLog +:+ ": ")])%list in
  let m := (m ++ [log.New ew (severityName !!! fatalLog +:+ ": ")])%list in
  {| m := m; v := v |}.

Definition NewLoggerV2 (infoW warningW errorW : io.Writer) : loggerT :=
  NewLoggerV2WithVerbosity infoW warningW errorW 0.

(** [newLoggerV2], with [getenv] for [os.Getenv] (the empty string for a
    variable that is not set). *)
Definition newLoggerV2 (getenv : string → string) : loggerT :=
  let errorW := io.Discard in
  let warningW := io.Discard in
  let infoW := io.Discard in
  let logLevel := getenv "GRPC_GO_LOG_SEVERITY_LEVEL" in
  let '(infoW, warningW, errorW) :=
    if bool_decide (logLevel ∈ [""; "ERROR"; "error"]) then
      (infoW, warningW, io.Stderr)
    else if bool_decide (logLevel ∈ ["WARNING"; "warning"]) then
      (infoW, io.Stderr, errorW)
    else if bool_decide (logLevel ∈ ["INFO"; "info"]) then
      (io.Stderr, warningW, errorW)
    else (infoW, warningW, errorW) in
  let v := 0%Z in
  let vLevel := getenv "GRPC_GO_LOG_VERBOSITY_LEVEL" in
  let v := match strconv.Atoi vLevel with
           | Some vl => vl
           | None => v
           end in
  NewLoggerV2WithVerbosity infoW warningW errorW v.

(** [g.m[i]], then a call on the logger found there. *)
Definition with_logger (g : loggerT) (i : nat)
    (call : log.Logger → list (N * string)) : effect :=
  match m g !! i with
  | Some l => Done (call l)
  | None => Panicked "runtime error: index out of range"
  end.

(** [os.Exit(1)] after the call, as [log.Logger.Fatal] and its kin do. *)
Definition then_exit (e : effect) : effect :=
  match e with
  | Done w => Exited 1 w
  | other => other
  end.

Definition Info (g : loggerT) (stamp : string) (args : list iface)
  : effect :=
  with_logger g infoLog (λ l, log.Print l stamp args).

Definition Infoln (g : loggerT) (stamp : string) (args : list iface)
  : effect :=
  with_logger g infoLog (λ l, log.Println l stamp args).

Definition Infof (g : loggerT) (stamp format : string) (args : list iface)
  : effect :=
  with_logger g infoLog (λ l, log.Printf l stamp format args).

Definition Warning (g : loggerT) (stamp : string) (args : list iface)
  : effect :=
  with_logger g warningLog (λ l, log.Print l stamp args).

Definition Warningln (g : loggerT) (stamp : string) (args : list iface)
  : effect :=
  with_logger g warningLog (λ l, log.Println l stamp args).

Definition Warningf (g : loggerT) (stamp format : string)
    (args : list iface) : effect :=
  with_logger g warningLog (λ l, log.Printf l stamp format args).

Definition Error (g : loggerT) (stamp : string) (args : list iface)
  : effect :=
  with_logger g errorLog (λ l, log.Print l stamp args).

Definition Errorln (g : loggerT) (stamp : string) (args : list iface)
  : effect :=
  with_logger g errorLog (λ l, log.Println l stamp args).

Definition Errorf (g : loggerT) (stamp format : string) (args : list iface)
  : effect :=
  with_logger g errorLog (λ l, log.Printf l stamp format args).

Definition Fatal (g : loggerT) (stamp : string) (args : list iface)
  : effect :=
  then_exit (with_logger g fatalLog (λ l, log.Print l stamp args)).

Definition Fatalln (g : loggerT) (stamp : string) (args : list iface)
  : effect :=
  then_exit (with_logger g fatalLog (λ l, log.Println l stamp args)).

Definition Fatalf (g : loggerT) (stamp format : string) (args : list iface)
  : effect :=
  then_exit (with_logger g fatalLog (λ l, log.Printf l stamp format args)).

Definition V (g : loggerT) (l : Z) : bool := bool_decide (l ≤ v g)%Z.

End grpclog.

(* ================================================================== *)
(** * status.Code with the methods of an error as calls *)
(* ================================================================== *)

Module status_calls.
Import internal_status.

(** What a call of one of an error's methods does: it returns, or it
    panics, as a method of a pointer type does when it is called on a nil
    pointer and reads a field of it. *)
Inductive call (A : Type) : Type :=
| Returns (x : A)
| Panics (msg : string).
Arguments Returns {A} x.
Arguments Panics {A} msg.

(** A non-nil error, as [internal_status.dyn_error] has it, with each of
    its two methods as the call it is instead of the value it returns. *)
Record dyn_error : Type := mkError {
  dyn_type : string;
  dyn_id : N;
  err_Error : call string;
  err_GRPCStatus : option (call (option Status))
}.

Definition error : Type := option dyn_error.

(** An error whose methods return. *)
Definition returning (e : internal_status.dyn_error) : dyn_error :=
  {| dyn_type := internal_status.dyn_type e;
     dyn_id := internal_status.dyn_id e;
     err_Error := Returns (internal_status.err_Error e);
     err_GRPCStatus := Returns <$> internal_status.err_GRPCStatus e |}.

(** [Code], as it runs: the comparison with nil and the type assertion
    with [ok] cannot fail; [se.GRPCStatus()] calls the error's method and
    [.Code()] reads what it returns; a panic of the method is not
    recovered. *)
Definition Code (err : error) : call Z :=
  match err with
  | None => Returns codes.OK
  | Some e =>
      match err_GRPCStatus e with
      | Some (Returns se) => Returns (Status_Code se)
      | Some (Panics msg) => Panics msg
      | None => Returns codes.Unknown
      end
  end.

End status_calls.

(* ================================================================== *)
(** * package attributes over every interface value *)
(* ================================================================== *)

Module attributes_any.
Import golang.

(** Interface values beyond those of [iface]: a [float64] NaN, which can
    be hashed but is not equal to itself, and a slice, which cannot be
    hashed. *)
Inductive any : Type :=
| Plain (v : iface)
| NaN
| Slice (elems : list iface).

(** Whether Go's map can hash a key. *)
Definition hashable (k : any) : bool :=
  match k with
  | Slice _ => false
  | _ => true
  end.

(** A [map[interface{}]interface{}]: the entries under keys that are equal
    to themselves, and the values of the entries under NaN keys, each of
    which is an entry of its own that no lookup finds. *)
Record gomap : Type := mkMap {
  entries : gmap iface any;
  nans : list any
}.

(** [make(map[interface{}]interface{}, n)] *)
Definition make : gomap := {| entries := ∅; nans := [] |}.

Record Attributes : Type := mkAttributes {
  m : gomap
}.

Inductive outcome (A : Type) : Type :=
| Returns (x : A) (h : gmap positive Attributes)
| Panics (msg : string) (h : gmap positive Attributes).
Arguments Returns {A} x h.
Arguments Panics {A} msg h.

Definition M (A : Type) : Type := gmap positive Attributes → outcome A.

#[global] Instance M_ret : MRet M := λ A x h, Returns x h.

#[global] Instance M_bind : MBind M := λ A B k c h,
  match c h with
  | Returns x h' => k x h'
  | Panics msg h' => Panics msg h'
  end.

Definition panic {A : Type} (msg : string) : M A := λ h, Panics msg h.

Definition unhashable : string :=
  "runtime error: hash of unhashable type []interface {}".

Definition alloc (a : Attributes) : M positive :=
  λ h, let l := fresh (dom h) in Returns l (<[l := a]> h).

Definition load (a : option positive) : M Attributes :=
  λ h, match a with
       | None => Panics attributes.nil_dereference h
       | Some l =>
           match h !! l with
           | Some x => Returns x h
           | None => Panics attributes.nil_dereference h
           end
       end.

(** [x[k] = v] on the map itself: an unhashable key panics, a NaN key
    adds an entry, any other key sets its entry. *)
Definition assign (x : gomap) (k v : any) : option gomap :=
  match k with
  | Slice _ => None
  | NaN => Some {| entries := entries x; nans := nans x ++ [v] |}
  | Plain key => Some {| entries := <[key := v]> (entries x); nans := nans x |}
  end.

(** [n.m[k] = v] *)
Definition map_store (n : positive) (k v : any) : M unit :=
  λ h, match h !! n with
       | Some x =>
           match assign (m x) k v with
           | Some x' => Returns tt (<[n := mkAttributes x']> h)
           | None => Panics unhashable h
           end
       | None => Panics attributes.nil_dereference h
       end.

(** [x[key]] on the map itself: an unhashable key panics, a NaN key finds
    nothing, and a key that has no entry reads nil. *)
Definition access (x : gomap) (key : any) : option any :=
  match key with
  | Slice _ => None
  | NaN => Some (Plain INil)
  | Plain k => Some (default (Plain INil) (entries x !! k))
  end.

(** The entries a [range] over the map visits, in one of its orders. *)
Definition range (x : gomap) : list (any * any) :=
  ((λ kv, (Plain kv.1, kv.2)) <$> map_to_list (entries x)) ++
  (pair NaN <$> nans x).

Definition index (kvs : list any) (i : nat) : M any :=
  match kvs !! i with
  | Some v => mret v
  | None => panic attributes.index_out_of_range
  end.

Fixpoint write_kvs (n : positive) (kvs : list any) (i todo : nat) : M unit :=
  match todo with
  | 0 => mret tt
  | S todo' =>
      k ← index kvs (i * 2);
      v ← index kvs (i * 2 + 1);
      map_store n k v;;
      write_kvs n kvs (S i) todo'
  end.

Fixpoint range_copy (n : positive) (visited : list (any * any)) : M unit :=
  match visited with
  | [] => mret tt
  | (k, v) :: rest => map_store n k v;; range_copy n rest
  end.

Definition unexpected_input (kvs : list any) : string :=
  fmt.Sprintf "attributes.New called with unexpected input: len(kvs) = %v"
    [IInt (Z.of_nat (length kvs))].

Definition New (kvs : list any) : M (option positive) :=
  if negb (Nat.eqb (length kvs mod 2) 0) then panic (unexpected_input kvs)
  else
    a ← alloc (mkAttributes make);
    write_kvs a kvs 0 (length kvs / 2);;
    mret (Some a).

Definition WithValues (a : option positive) (kvs : list any)
  : M (option positive) :=
  if negb (Nat.eqb (length kvs mod 2) 0) then panic (unexpected_input kvs)
  else
    load a;;
    n ← alloc (mkAttributes make);
    x ← load a;
    range_copy n (range (m x));;
    write_kvs n kvs 0 (length kvs / 2);;
    mret (Some n).

Definition Value (a : option positive) (key : any) : M any :=
  x ← load a;
  match access (m x) key with
  | Some v => mret v
  | None => panic unhashable
  end.

(** Every key of the pairs of an argument list can be hashed. *)
Definition keys_hashable (kvs : list any) : Prop :=
  ∀ (j : nat) (k : any), kvs !! (j * 2)%nat = Some k → hashable k = true.

End attributes_any.

(* ================================================================== *)
(** * Sample error values *)
(* ================================================================== *)

Module samples.
Import internal_status.

(** An error of a type the status package has never seen, which offers
    [GRPCStatus]. *)
Definition quota_error : dyn_error :=
  mkError "*thirdparty.quotaError" 7 "quota exceeded"
    (Some (Some (status.New codes.ResourceExhausted "quota"))).

(** The same, with a method that returns the nil Status. *)
Definition nil_status_error : dyn_error :=
  mkError "*thirdparty.quotaError" 8 "quota exceeded" (Some None).

(** [errors.New("boom")] *)
Definition boom_error : dyn_error :=
  mkError "*errors.errorString" 42 "boom" None.

(** [errors.New("context canceled")], made somewhere else: the text of
    [context.Canceled] at another address. *)
Definition other_canceled : dyn_error :=
  mkError "*errors.errorString" 2 "context canceled" None.

(** The Attributes [{"k": 1}], and a store that holds it at address 1. *)
Definition a0 : attributes.Attributes :=
  attributes.mkAttributes {[ golang.IString "k" := golang.IInt 1 ]}.

Definition h0 : gmap positive attributes.Attributes :=
  {[ 1%positive := a0 ]}.

(** An argument list that names "k" twice. *)
Definition kvs0 : list golang.iface :=
  [golang.IString "k"; golang.IInt 5; golang.IString "j"; golang.IInt 2;
   golang.IString "k"; golang.IInt 9].

(** A nil pointer of a type whose two methods read a field of their
    receiver, stored in an error: the error is not nil, and calling either
    method panics. *)
Definition typed_nil_error : status_calls.dyn_error :=
  status_calls.mkError "*thirdparty.quotaError" 0
    (status_calls.Panics attributes.nil_dereference)
    (Some (status_calls.Panics attributes.nil_dereference)).

(** A store over every interface value with one Attributes,
    [{"k": 1, NaN: 2}], at address 1. *)
Definition b0 : attributes_any.Attributes :=
  attributes_any.mkAttributes
    (attributes_any.mkMap
       {[ golang.IString "k" := attributes_any.Plain (golang.IInt 1) ]}
       [attributes_any.Plain (golang.IInt 2)]).

Definition g0 : gmap positive attributes_any.Attributes :=
  {[ 1%positive := b0 ]}.

(** An environment that sets the two variables the logger reads. *)
Definition env_of (level verbosity : string) (name : string) : string :=
  if decide (name = "GRPC_GO_LOG_SEVERITY_LEVEL") then level
  else if decide (name = "GRPC_GO_LOG_VERBOSITY_LEVEL") then verbosity
  else "".

End samples.

(* ================================================================== *)
(** * Properties *)
(* ================================================================== *)

Section fmt_examples.
Import golang.

Example Sprintf_bad_field :
  fmt.Sprintf "bad field %s" [IString "x"] = "bad field x".
Proof. reflexivity. Qed.

Example Sprintf_len :
  fmt.Sprintf "len(kvs) = %v" [IInt 3] = "len(kvs) = 3".
Proof. vm_compute. reflexivity. Qed.

Example Sprintf_mixed :
  fmt.Sprintf "%d%% of %s %t" [IString "x"; IInt (-7)] =
  "%!d(string=x)% of %!s(int=-7) %!t(MISSING)".
Proof. vm_compute. reflexivity. Qed.

Example Sprintf_extra :
  fmt.Sprintf "a" [IInt 1; INil; IBool true] =
  "a%!(EXTRA int=1, <nil>, bool=true)".
Proof. vm_compute. reflexivity. Qed.

End fmt_examples.

(* ------------------------------------------------------------------ *)
(** ** status *)
(* ------------------------------------------------------------------ *)

Section status_properties.
Import golang internal_status.

Lemma Err_None_iff (CodeString : Z → string) (s : Status) :
  Err CodeString s = None ↔ code s = codes.OK.
Proof.
  unfold Err. destruct (decide (code s = codes.OK)) as [Hok | Hne].
  - split; intros _; [exact Hok | reflexivity].
  - split; [discriminate | intros Hok; contradiction].
Qed.

Lemma Err_present (CodeString : Z → string) (s : Status) :
  code s ≠ codes.OK →
  ∃ e, Err CodeString s = Some e ∧ err_GRPCStatus e = Some (Some s).
Proof.
  intros Hne. unfold Err. rewrite decide_False by exact Hne.
  eexists. split; reflexivity.
Qed.

(** C1, as the code has it.  A Status converts to the nil error exactly
    when its code is OK, and any other code gives a present error that
    carries the Status; [Error(c, msg)] is nil exactly for [c = OK].
    [FromError(nil)] returns the nil Status with [ok = true]; the nil
    Status reads as code OK. *)
Theorem OK_bijection (CodeString : Z → string) (s : Status) :
  (Err CodeString s = None ↔ code s = codes.OK) ∧
  (code s ≠ codes.OK →
     ∃ e, Err CodeString s = Some e ∧ err_GRPCStatus e = Some (Some s)) ∧
  (∀ c msg, status.Error CodeString c msg = None ↔ c = codes.OK) ∧
  status.FromError None = (None, true) ∧
  Status_Code (status.FromError None).1 = codes.OK.
Proof.
  split; [apply Err_None_iff |].
  split; [apply Err_present |].
  split; [| split; reflexivity].
  intros c msg. unfold status.Error. rewrite Err_None_iff. reflexivity.
Qed.

Lemma OK_bijection_witness :
  ∃ e, Err (λ _, "NOT_FOUND") (status.New codes.NotFound "gone") = Some e ∧
       err_GRPCStatus e = Some (Some (status.New codes.NotFound "gone")).
Proof.
  apply (proj1 (proj2 (OK_bijection (λ _, "NOT_FOUND")
                         (status.New codes.NotFound "gone")))).
  vm_compute. discriminate.
Defined.

(** C1 as stated fails: [FromError(nil)] does not return a Status value
    with code OK; the Status it returns is nil. *)
Lemma FromError_nil_no_Status :
  ¬ ∃ s : Status,
      code s = codes.OK ∧ status.FromError None = (Some s, true).
Proof. intros (s & _ & H). discriminate H. Qed.

(** C2.  The reconstruction from the wire record inverts the wire
    projection: a Status comes back with the same code, message and
    ordered details, hence equal; and a wire record survives the other way
    round. *)
Theorem wire_round_trip (s : Status) (p : spb.Status) :
  status.FromProto (Proto s) = s ∧
  code (status.FromProto (Proto s)) = code s ∧
  message (status.FromProto (Proto s)) = message s ∧
  details (status.FromProto (Proto s)) = details s ∧
  Proto (status.FromProto p) = p.
Proof.
  destruct s as [c msg ds], p as [pc pm pd].
  unfold status.FromProto, FromProto, Proto. simpl.
  repeat split.
Qed.

(** C3.  Any non-nil error whose dynamic value has the method
    [GRPCStatus], whatever its concrete type and identity, is recognised:
    [FromError] returns what the method returns, and [true]. *)
Theorem FromError_capability (e : dyn_error) (se : option Status) :
  err_GRPCStatus e = Some se →
  status.FromError (Some e) = (se, true) ∧
  ∀ ty id txt,
    status.FromError (Some (mkError ty id txt (err_GRPCStatus e))) = (se, true).
Proof.
  intros H. unfold status.FromError. simpl. rewrite H. split; reflexivity.
Qed.

Lemma FromError_capability_witness :
  status.FromError (Some samples.quota_error) =
  (Some (status.New codes.ResourceExhausted "quota"), true).
Proof.
  apply (FromError_capability samples.quota_error). reflexivity.
Defined.

(** C4.  A non-nil error without the method becomes an Unknown Status
    with the error's text, and [false]; so an error whose text is "boom"
    gives (Status{Unknown, "boom"}, false). *)
Theorem FromError_unknown_fallback (e : dyn_error) :
  err_GRPCStatus e = None →
  status.FromError (Some e) =
    (Some {| code := codes.Unknown; message := err_Error e; details := [] |},
     false) ∧
  (err_Error e = "boom" →
   status.FromError (Some e) =
     (Some {| code := codes.Unknown; message := "boom"; details := [] |},
      false)).
Proof.
  intros H. unfold status.FromError. rewrite H. split; [reflexivity |].
  intros ->. reflexivity.
Qed.

Lemma FromError_unknown_fallback_witness :
  status.FromError (Some samples.boom_error) =
  (Some {| code := codes.Unknown; message := "boom"; details := [] |}, false).
Proof.
  apply (proj2 (FromError_unknown_fallback samples.boom_error eq_refl)).
  reflexivity.
Defined.

Lemma Canceled_not_DeadlineExceeded (e : dyn_error) :
  error_eq (Some e) context.Canceled = true →
  error_eq (Some e) context.DeadlineExceeded = false.
Proof.
  unfold error_eq, context.Canceled, context.DeadlineExceeded. simpl.
  intros [Hty _]%andb_prop. apply bool_decide_eq_true in Hty.
  rewrite Hty. reflexivity.
Qed.

(** C5.  [FromContextError] maps the nil signal to the nil Status, a
    signal equal to [context.DeadlineExceeded] to DeadlineExceeded, one
    equal to [context.Canceled] to Canceled, and every other non-nil
    signal to Unknown, each with the signal's text as message. *)
Theorem FromContextError_mapping (e : dyn_error) :
  status.FromContextError None = None ∧
  (error_eq (Some e) context.DeadlineExceeded = true →
   status.FromContextError (Some e) =
     Some {| code := codes.DeadlineExceeded; message := err_Error e;
             details := [] |}) ∧
  (error_eq (Some e) context.Canceled = true →
   status.FromContextError (Some e) =
     Some {| code := codes.Canceled; message := err_Error e;
             details := [] |}) ∧
  (error_eq (Some e) context.DeadlineExceeded = false →
   error_eq (Some e) context.Canceled = false →
   status.FromContextError (Some e) =
     Some {| code := codes.Unknown; message := err_Error e;
             details := [] |}) ∧
  status.FromContextError context.DeadlineExceeded =
    Some {| code := codes.DeadlineExceeded;
            message := "context deadline exceeded"; details := [] |} ∧
  status.FromContextError context.Canceled =
    Some {| code := codes.Canceled; message := "context canceled";
            details := [] |}.
Proof.
  split; [reflexivity |].
  split.
  { intros Hd. unfold status.FromContextError. rewrite Hd. reflexivity. }
  split.
  { intros Hc. unfold status.FromContextError.
    rewrite (Canceled_not_DeadlineExceeded e Hc), Hc. reflexivity. }
  split.
  { intros Hd Hc. unfold status.FromContextError. rewrite Hd, Hc.
    reflexivity. }
  split; reflexivity.
Qed.

Lemma FromContextError_mapping_witness :
  status.FromContextError context.DeadlineExceeded =
    Some (status.New codes.DeadlineExceeded "context deadline exceeded") ∧
  status.FromContextError context.Canceled =
    Some (status.New codes.Canceled "context canceled") ∧
  status.FromContextError (Some samples.other_canceled) =
    Some (status.New codes.Unknown "context canceled").
Proof.
  split; [| split].
  - apply (proj1 (proj2 (FromContextError_mapping
             (mkError "context.deadlineExceededError" 0
                "context deadline exceeded" None)))).
    reflexivity.
  - apply (proj1 (proj2 (proj2 (FromContextError_mapping
             (mkError "*errors.errorString" 1 "context canceled" None))))).
    reflexivity.
  - apply (proj1 (proj2 (proj2 (proj2
             (FromContextError_mapping samples.other_canceled))))).
    + reflexivity.
    + reflexivity.
Defined.

(** C6, as the code has it.  [Code] returns OK for the nil error, the
    code of the Status that [GRPCStatus] returns for an error with the
    method (OK when that Status is nil), and Unknown for every other
    error, without calling [Error]; it recovers nothing, so it panics
    exactly when the error's own [GRPCStatus] panics.  On errors whose
    methods return it is the function [status.Code]. *)
Theorem Code_returns_unless_method_panics (err : status_calls.error) :
  (err = None → status_calls.Code err = status_calls.Returns codes.OK) ∧
  (∀ e se, err = Some e →
     status_calls.err_GRPCStatus e = Some (status_calls.Returns se) →
     status_calls.Code err = status_calls.Returns (Status_Code se)) ∧
  (∀ e s, err = Some e →
     status_calls.err_GRPCStatus e = Some (status_calls.Returns (Some s)) →
     status_calls.Code err = status_calls.Returns (code s)) ∧
  (∀ e, err = Some e → status_calls.err_GRPCStatus e = None →
     status_calls.Code err = status_calls.Returns codes.Unknown) ∧
  (∀ e msg, err = Some e →
     status_calls.err_GRPCStatus e = Some (status_calls.Panics msg) →
     status_calls.Code err = status_calls.Panics msg) ∧
  ((∃ c, status_calls.Code err = status_calls.Returns c) ↔
   ¬ ∃ e msg, err = Some e ∧
              status_calls.err_GRPCStatus e = Some (status_calls.Panics msg))
  ∧
  (∀ err0 : error, err = status_calls.returning <$> err0 →
     status_calls.Code err = status_calls.Returns (status.Code err0)).
Proof.
  unfold status_calls.Code.
  split; [intros ->; reflexivity |].
  split; [intros e se -> Hcap; rewrite Hcap; reflexivity |].
  split; [intros e s -> Hcap; rewrite Hcap; reflexivity |].
  split; [intros e -> Hcap; rewrite Hcap; reflexivity |].
  split; [intros e msg -> Hcap; rewrite Hcap; reflexivity |].
  split.
  - destruct err as [e |].
    + destruct (status_calls.err_GRPCStatus e) as [[se | msg] |] eqn:Hcap.
      * split; [| eauto]. intros _ (e' & msg & [= <-] & H). congruence.
      * split; [intros [c H]; discriminate H |].
        intros H. exfalso. apply H. eauto.
      * split; [| eauto]. intros _ (e' & msg & [= <-] & H). congruence.
    + split; [| eauto]. intros _ (e' & msg & H & _). discriminate H.
  - intros [e0 |] ->; [| reflexivity]. simpl. unfold status.Code.
    destruct (err_GRPCStatus e0); reflexivity.
Qed.

Lemma Code_returns_unless_method_panics_witness :
  status_calls.Code None = status_calls.Returns codes.OK ∧
  status_calls.Code (Some (status_calls.returning samples.quota_error)) =
    status_calls.Returns codes.ResourceExhausted ∧
  status_calls.Code (Some (status_calls.returning samples.nil_status_error))
    = status_calls.Returns codes.OK ∧
  status_calls.Code (Some (status_calls.returning samples.boom_error)) =
    status_calls.Returns codes.Unknown ∧
  status_calls.Code (Some samples.typed_nil_error) =
    status_calls.Panics attributes.nil_dereference.
Proof.
  split; [| split; [| split; [| split]]].
  - apply (proj1 (Code_returns_unless_method_panics None)). reflexivity.
  - apply (proj1 (proj2 (proj2 (Code_returns_unless_method_panics
             (Some (status_calls.returning samples.quota_error)))))
             (status_calls.returning samples.quota_error)
             (status.New codes.ResourceExhausted "quota")); reflexivity.
  - apply (proj1 (proj2 (Code_returns_unless_method_panics
             (Some (status_calls.returning samples.nil_status_error))))
             (status_calls.returning samples.nil_status_error) None);
      reflexivity.
  - apply (proj1 (proj2 (proj2 (proj2 (Code_returns_unless_method_panics
             (Some (status_calls.returning samples.boom_error))))))
             (status_calls.returning samples.boom_error)); reflexivity.
  - apply (proj1 (proj2 (proj2 (proj2 (proj2
             (Code_returns_unless_method_panics
                (Some samples.typed_nil_error))))))
             samples.typed_nil_error attributes.nil_dereference);
      reflexivity.
Defined.

(** C6 as stated fails: [Code] panics on an error that is a nil pointer
    whose [GRPCStatus] method reads a field of its receiver, so it returns
    no code for it. *)
Lemma Code_panics_on_typed_nil :
  status_calls.Code (Some samples.typed_nil_error) =
    status_calls.Panics attributes.nil_dereference ∧
  ¬ ∃ c, status_calls.Code (Some samples.typed_nil_error) =
           status_calls.Returns c.
Proof. split; [reflexivity |]. intros [c H]. discriminate H. Qed.

(** C7.  [Newf] is [New] applied to the formatted message and adds
    nothing: same code, the formatted text as message, no details; and
    formatting "bad field %s" with "x" gives the message "bad field x". *)
Theorem Newf_formatting (c : Z) (format : string) (a : list iface) :
  status.Newf c format a = status.New c (fmt.Sprintf format a) ∧
  code (status.Newf c format a) = c ∧
  message (status.Newf c format a) = fmt.Sprintf format a ∧
  details (status.Newf c format a) = [] ∧
  message (status.Newf codes.InvalidArgument "bad field %s" [IString "x"])
    = "bad field x".
Proof.
  unfold status.Newf, status.New, New. simpl. repeat split.
Qed.

End status_properties.

(* ------------------------------------------------------------------ *)
(** ** attributes *)
(* ------------------------------------------------------------------ *)

Section attributes_properties.
Import golang attributes.
Local Open Scope nat_scope.

Lemma even_parity (n : nat) : Nat.Even n → Nat.eqb (n mod 2) 0 = true.
Proof.
  intros [k ->]. apply Nat.eqb_eq. rewrite Nat.mul_comm. apply Nat.Div0.mod_mul.
Qed.

Lemma odd_parity (n : nat) : Nat.Odd n → Nat.eqb (n mod 2) 0 = false.
Proof.
  intros [k ->]. apply Nat.eqb_neq.
  rewrite Nat.add_comm, Nat.mul_comm, Nat.Div0.mod_add. discriminate.
Qed.

Lemma half_fits (n : nat) : (0 + n / 2) * 2 ≤ n.
Proof. rewrite Nat.add_0_l, Nat.mul_comm. apply Nat.Div0.mul_div_le. Qed.

Lemma write_kvs_step (n : positive) (kvs : list iface) (i todo : nat)
    (h : gmap positive Attributes) (k v : iface) (x : Attributes) :
  kvs !! (i * 2) = Some k → kvs !! (i * 2 + 1) = Some v →
  h !! n = Some x →
  write_kvs n kvs i (S todo) h =
  write_kvs n kvs (S i) todo (<[n := mkAttributes (<[k := v]> (m x))]> h).
Proof.
  intros Hk Hv Hn. simpl.
  unfold mbind, M_bind, index, map_store. rewrite Hk, Hv. simpl.
  rewrite Hn. reflexivity.
Qed.

Lemma write_kvs_spec (n : positive) (kvs : list iface) (todo : nat) :
  ∀ (i : nat) (h : gmap positive Attributes) (m0 : gmap iface iface),
  h !! n = Some (mkAttributes m0) →
  (i + todo) * 2 ≤ length kvs →
  ∃ m1 : gmap iface iface,
    write_kvs n kvs i todo h = Returns tt (<[n := mkAttributes m1]> h) ∧
    (∀ key, (∀ j, i ≤ j < i + todo → kvs !! (j * 2) ≠ Some key) →
            m1 !! key = m0 !! key) ∧
    (∀ key j v, i ≤ j < i + todo →
                kvs !! (j * 2) = Some key → kvs !! (j * 2 + 1) = Some v →
                (∀ j', j < j' < i + todo → kvs !! (j' * 2) ≠ Some key) →
                m1 !! key = Some v).
Proof.
  induction todo as [| todo IH]; intros i h m0 Hn Hlen.
  - exists m0. split; [| split].
    + simpl. unfold mret, M_ret. f_equal. symmetry. apply insert_id. exact Hn.
    + reflexivity.
    + intros key j v Hj. lia.
  - destruct (lookup_lt_is_Some_2 kvs (i * 2)) as [k Hk]; [lia |].
    destruct (lookup_lt_is_Some_2 kvs (i * 2 + 1)) as [v Hv]; [lia |].
    rewrite (write_kvs_step n kvs i todo h k v _ Hk Hv Hn). simpl.
    destruct (IH (S i) (<[n := mkAttributes (<[k := v]> m0)]> h)
                (<[k := v]> m0)) as (m1 & Hrun & Hkeep & Hlast).
    { apply lookup_insert_eq. }
    { lia. }
    exists m1. split; [| split].
    + rewrite Hrun. f_equal. apply insert_insert_eq.
    + intros key Hnone. rewrite Hkeep.
      * apply lookup_insert_ne. intros ->. apply (Hnone i); [lia | exact Hk].
      * intros j Hj. apply Hnone. lia.
    + intros key j w Hj Hkey Hval Hlater.
      destruct (decide (j = i)) as [-> | Hne].
      * rewrite Hkeep.
        -- rewrite Hk in Hkey. rewrite Hv in Hval.
           injection Hkey as ->. injection Hval as ->. apply lookup_insert_eq.
        -- intros j' Hj'. apply Hlater. lia.
      * apply (Hlast key j w); [lia | exact Hkey | exact Hval |].
        intros j' Hj'. apply Hlater. lia.
Qed.

Lemma range_copy_spec (n : positive) (entries : list (iface * iface)) :
  ∀ (h : gmap positive Attributes) (m0 : gmap iface iface),
  NoDup entries.*1 →
  h !! n = Some (mkAttributes m0) →
  ∃ m1 : gmap iface iface,
    range_copy n entries h = Returns tt (<[n := mkAttributes m1]> h) ∧
    ∀ key, m1 !! key =
           match (list_to_map entries : gmap iface iface) !! key with
           | Some v => Some v
           | None => m0 !! key
           end.
Proof.
  induction entries as [| [k v] rest IH]; intros h m0 Hnodup Hn.
  - exists m0. split.
    + simpl. unfold mret, M_ret. f_equal. symmetry. apply insert_id. exact Hn.
    + intros key. simpl. rewrite lookup_empty. reflexivity.
  - simpl in Hnodup. apply NoDup_cons in Hnodup as [Hfresh Hnodup].
    destruct (IH (<[n := mkAttributes (<[k := v]> m0)]> h) (<[k := v]> m0))
      as (m1 & Hrun & Hlook); [exact Hnodup | apply lookup_insert_eq |].
    exists m1. split.
    + simpl. unfold mbind, M_bind, map_store. rewrite Hn. simpl.
      rewrite Hrun. f_equal. apply insert_insert_eq.
    + intros key. rewrite Hlook. simpl.
      destruct (decide (k = key)) as [-> | Hne].
      * rewrite (not_elem_of_list_to_map_1 _ _ Hfresh).
        rewrite !lookup_insert_eq. reflexivity.
      * rewrite !(lookup_insert_ne _ k key) by exact Hne. reflexivity.
Qed.

(** Whatever order the range statement visits the entries in, the copy is
    the map itself. *)
Lemma range_copy_any_order (n : positive) (x : gmap iface iface)
    (entries : list (iface * iface)) (h : gmap positive Attributes) :
  entries ≡ₚ map_to_list x →
  h !! n = Some (mkAttributes ∅) →
  range_copy n entries h = Returns tt (<[n := mkAttributes x]> h).
Proof.
  intros Hperm Hn.
  assert (Hnodup : NoDup entries.*1).
  { rewrite Hperm. apply NoDup_fst_map_to_list. }
  destruct (range_copy_spec n entries h ∅ Hnodup Hn) as (m1 & Hrun & Hlook).
  rewrite Hrun. do 2 f_equal. f_equal. apply map_eq. intros key.
  rewrite Hlook, lookup_empty.
  assert (Heq : (list_to_map entries : gmap iface iface) = x).
  { rewrite <- (list_to_map_to_list x). apply list_to_map_proper; assumption. }
  rewrite Heq. destruct (x !! key); reflexivity.
Qed.

Lemma alloc_fresh (x : Attributes) (h : gmap positive Attributes) :
  ∃ n, alloc x h = Returns n (<[n := x]> h) ∧ h !! n = None.
Proof.
  exists (fresh (dom h)). split; [reflexivity |].
  apply not_elem_of_dom. apply is_fresh.
Qed.

Lemma New_spec (kvs : list iface) (h : gmap positive Attributes) :
  Nat.Even (length kvs) →
  ∃ (a : positive) (m1 : gmap iface iface),
    New kvs h = Returns (Some a) (<[a := mkAttributes m1]> h) ∧
    h !! a = None ∧
    (∀ key, (∀ j, kvs !! (j * 2) ≠ Some key) → m1 !! key = None) ∧
    (∀ key j v, kvs !! (j * 2) = Some key → kvs !! (j * 2 + 1) = Some v →
                (∀ j', j < j' → kvs !! (j' * 2) ≠ Some key) →
                m1 !! key = Some v).
Proof.
  intros Heven. unfold New. rewrite (even_parity _ Heven). cbn [negb].
  destruct (alloc_fresh (mkAttributes ∅) h) as (a & Halloc & Hfresh).
  destruct (write_kvs_spec a kvs (length kvs / 2) 0
              (<[a := mkAttributes ∅]> h) ∅) as (m1 & Hrun & Hkeep & Hlast).
  { apply lookup_insert_eq. }
  { apply half_fits. }
  exists a, m1. unfold mbind, M_bind. rewrite Halloc, Hrun.
  split; [| split; [exact Hfresh | split]].
  - unfold mret, M_ret. f_equal. apply insert_insert_eq.
  - intros key Hnone. rewrite Hkeep; [apply lookup_empty |].
    intros j _. apply Hnone.
  - intros key j v Hkey Hval Hlater.
    apply (Hlast key j v); [| exact Hkey | exact Hval |].
    + apply lookup_lt_Some in Hval. pose proof (half_fits (length kvs)).
      assert (j * 2 + 1 < length kvs) by exact Hval.
      destruct Heven as [c Hc]. rewrite Hc in *.
      rewrite (Nat.mul_comm 2 c), Nat.div_mul in * by discriminate. lia.
    + intros j' Hj'. apply Hlater. lia.
Qed.

Lemma load_allocated (l : positive) (x : Attributes)
    (h : gmap positive Attributes) :
  h !! l = Some x → load (Some l) h = Returns x h.
Proof. intros H. unfold load. rewrite H. reflexivity. Qed.

Lemma Value_allocated (l : positive) (x : Attributes) (key : iface)
    (h : gmap positive Attributes) :
  h !! l = Some x →
  Value (Some l) key h = Returns (default INil (m x !! key)) h.
Proof.
  intros H. unfold Value, mbind, M_bind. rewrite (load_allocated l x h H).
  reflexivity.
Qed.

Lemma WithValues_spec (l : positive) (x : Attributes) (kvs : list iface)
    (h : gmap positive Attributes) :
  h !! l = Some x →
  Nat.Even (length kvs) →
  ∃ (n : positive) (m1 : gmap iface iface),
    WithValues (Some l) kvs h =
      Returns (Some n) (<[n := mkAttributes m1]> h) ∧
    h !! n = None ∧
    (∀ key, (∀ j, kvs !! (j * 2) ≠ Some key) →
            m1 !! key = m x !! key) ∧
    (∀ key j v, kvs !! (j * 2) = Some key → kvs !! (j * 2 + 1) = Some v →
                (∀ j', j < j' → kvs !! (j' * 2) ≠ Some key) →
                m1 !! key = Some v).
Proof.
  intros Hl Heven. unfold WithValues. rewrite (even_parity _ Heven).
  cbn [negb].
  destruct (alloc_fresh (mkAttributes ∅) h) as (n & Halloc & Hfresh).
  assert (Hne : n ≠ l) by (intros ->; congruence).
  assert (Hl' : <[n := mkAttributes ∅]> h !! l = Some x).
  { rewrite lookup_insert_ne by exact Hne. exact Hl. }
  pose proof (range_copy_any_order n (m x) (map_to_list (m x))
                (<[n := mkAttributes ∅]> h) (reflexivity _)
                (lookup_insert_eq _ _ _)) as Hcopy.
  rewrite insert_insert_eq in Hcopy.
  destruct (write_kvs_spec n kvs (length kvs / 2) 0
              (<[n := mkAttributes (m x)]> h) (m x))
    as (m1 & Hrun & Hkeep & Hlast).
  { apply lookup_insert_eq. }
  { apply half_fits. }
  rewrite insert_insert_eq in Hrun.
  exists n, m1. unfold mbind, M_bind.
  rewrite (load_allocated l x h Hl), Halloc.
  rewrite (load_allocated l x _ Hl'), Hcopy, Hrun.
  split; [reflexivity | split; [exact Hfresh | split]].
  - intros key Hnone. apply Hkeep. intros j _. apply Hnone.
  - intros key j v Hkey Hval Hlater.
    apply (Hlast key j v); [| exact Hkey | exact Hval |].
    + apply lookup_lt_Some in Hval.
      destruct Heven as [c Hc]. rewrite Hc in *.
      rewrite (Nat.mul_comm 2 c), Nat.div_mul in * by discriminate. lia.
    + intros j' Hj'. apply Hlater. lia.
Qed.

Lemma append_empty_r (s : string) : (s +:+ "")%string = s.
Proof.
  induction s as [| c s IH]; [reflexivity |].
  change (String c (s +:+ "") = String c s)%string. rewrite IH. reflexivity.
Qed.

Lemma unexpected_input_text (kvs : list iface) :
  unexpected_input kvs =
  ("attributes.New called with unexpected input: len(kvs) = " +:+
   pretty (Z.of_nat (length kvs)))%string.
Proof.
  rewrite <- (append_empty_r
                ("attributes.New called with unexpected input: len(kvs) = " +:+
                 pretty (Z.of_nat (length kvs)))%string).
  reflexivity.
Qed.

(** C9.  On an Attributes [l] and an even-length argument list,
    [WithValues] returns an address that was not allocated before, other
    than [l]; the object at [l], and every other object of the store, is
    what it was, so [Value] on [l] answers every key as before. *)
Theorem WithValues_leaves_receiver (l : positive) (x : Attributes)
    (kvs : list iface) (h : gmap positive Attributes) :
  h !! l = Some x →
  Nat.Even (length kvs) →
  ∃ n h',
    WithValues (Some l) kvs h = Returns (Some n) h' ∧
    n ≠ l ∧ h !! n = None ∧
    h' !! l = Some x ∧
    (∀ l', l' ≠ n → h' !! l' = h !! l') ∧
    (∀ key, Value (Some l) key h = Returns (default INil (m x !! key)) h ∧
            Value (Some l) key h' = Returns (default INil (m x !! key)) h').
Proof.
  intros Hl Heven.
  destruct (WithValues_spec l x kvs h Hl Heven) as (n & m1 & Hrun & Hfresh & _).
  assert (Hne : n ≠ l) by (intros ->; congruence).
  exists n, (<[n := mkAttributes m1]> h).
  split; [exact Hrun | split; [exact Hne | split; [exact Hfresh |]]].
  assert (Hl' : <[n := mkAttributes m1]> h !! l = Some x).
  { rewrite lookup_insert_ne by exact Hne. exact Hl. }
  split; [exact Hl' | split].
  - intros l' Hl'n. apply lookup_insert_ne. congruence.
  - intros key. split; apply Value_allocated; assumption.
Qed.

Lemma WithValues_leaves_receiver_witness :
  ∃ n h',
    WithValues (Some 1%positive) [IString "k"; IInt 5] samples.h0 =
      Returns (Some n) h' ∧
    n ≠ 1%positive ∧ samples.h0 !! n = None ∧
    h' !! 1%positive = Some samples.a0 ∧
    (∀ l', l' ≠ n → h' !! l' = samples.h0 !! l') ∧
    (∀ key,
       Value (Some 1%positive) key samples.h0 =
         Returns (default INil (m samples.a0 !! key)) samples.h0 ∧
       Value (Some 1%positive) key h' =
         Returns (default INil (m samples.a0 !! key)) h').
Proof.
  apply (WithValues_leaves_receiver 1%positive samples.a0
           [IString "k"; IInt 5] samples.h0).
  - reflexivity.
  - exists 1. reflexivity.
Defined.

(** C10.  Pairs are written in argument order, after the receiver's
    entries: [Value] on the result of [New] or [WithValues] gives a key
    the value of the last pair of [kvs] that has it, whatever earlier
    pairs or the receiver gave it; a key that no pair has reads nil after
    [New] and the receiver's entry after [WithValues]. *)
Theorem ordered_overwrite (kvs : list iface) (h : gmap positive Attributes) :
  Nat.Even (length kvs) →
  (∃ a h', New kvs h = Returns (Some a) h' ∧
     (∀ key v, latest kvs key v → Value (Some a) key h' = Returns v h') ∧
     (∀ key, unset kvs key → Value (Some a) key h' = Returns INil h')) ∧
  (∀ l x, h !! l = Some x →
     ∃ n h', WithValues (Some l) kvs h = Returns (Some n) h' ∧
       (∀ key v, latest kvs key v →
                 Value (Some n) key h' = Returns v h') ∧
       (∀ key, unset kvs key →
               Value (Some n) key h' =
                 Returns (default INil (m x !! key)) h')).
Proof.
  intros Heven. split.
  - destruct (New_spec kvs h Heven) as (a & m1 & Hrun & _ & Hnone & Hlast).
    exists a, (<[a := mkAttributes m1]> h). split; [exact Hrun | split].
    + intros key v (j & Hkey & Hval & Hlater).
      rewrite (Value_allocated a (mkAttributes m1)) by apply lookup_insert_eq.
      simpl. rewrite (Hlast key j v Hkey Hval Hlater). reflexivity.
    + intros key Hunset.
      rewrite (Value_allocated a (mkAttributes m1)) by apply lookup_insert_eq.
      simpl. rewrite (Hnone key Hunset). reflexivity.
  - intros l x Hl.
    destruct (WithValues_spec l x kvs h Hl Heven)
      as (n & m1 & Hrun & _ & Hkeep & Hlast).
    exists n, (<[n := mkAttributes m1]> h). split; [exact Hrun | split].
    + intros key v (j & Hkey & Hval & Hlater).
      rewrite (Value_allocated n (mkAttributes m1)) by apply lookup_insert_eq.
      simpl. rewrite (Hlast key j v Hkey Hval Hlater). reflexivity.
    + intros key Hunset.
      rewrite (Value_allocated n (mkAttributes m1)) by apply lookup_insert_eq.
      simpl. rewrite (Hkeep key Hunset). reflexivity.
Qed.

Lemma latest_kvs0 : latest samples.kvs0 (IString "k") (IInt 9).
Proof.
  exists 2. split; [reflexivity | split; [reflexivity |]].
  intros j' Hj'. rewrite lookup_ge_None_2; [discriminate | simpl; lia].
Qed.

Lemma ordered_overwrite_witness :
  (∃ a h', New samples.kvs0 samples.h0 = Returns (Some a) h' ∧
     Value (Some a) (IString "k") h' = Returns (IInt 9) h') ∧
  (∃ n h', WithValues (Some 1%positive) samples.kvs0 samples.h0 =
             Returns (Some n) h' ∧
     Value (Some n) (IString "k") h' = Returns (IInt 9) h').
Proof.
  destruct (ordered_overwrite samples.kvs0 samples.h0) as [HNew HWith].
  - exists 3. reflexivity.
  - split.
    + destruct HNew as (a & h' & Hrun & Hlast & _).
      exists a, h'. split; [exact Hrun |]. apply Hlast. exact latest_kvs0.
    + destruct (HWith 1%positive _ eq_refl) as (n & h' & Hrun & Hlast & _).
      exists n, h'. split; [exact Hrun |]. apply Hlast. exact latest_kvs0.
Defined.

End attributes_properties.

(* ------------------------------------------------------------------ *)
(** ** attributes: what New and WithValues build *)
(* ------------------------------------------------------------------ *)

Section attributes_more.
Import golang attributes.
Local Open Scope nat_scope.

Lemma write_kvs_exact (n : positive) (kvs : list iface) (todo : nat) :
  ∀ (i : nat) (h : gmap positive Attributes) (m0 : gmap iface iface),
  h !! n = Some (mkAttributes m0) →
  (i + todo) * 2 ≤ length kvs →
  write_kvs n kvs i todo h =
  Returns tt
    (<[n := mkAttributes (set_pairs m0 (take (todo * 2) (drop (i * 2) kvs)))]>
       h).
Proof.
  induction todo as [| todo IH]; intros i h m0 Hn Hlen.
  - simpl. unfold mret, M_ret. f_equal. symmetry. apply insert_id.
    destruct (drop (i * 2) kvs); exact Hn.
  - destruct (lookup_lt_is_Some_2 kvs (i * 2)) as [k Hk]; [lia |].
    destruct (lookup_lt_is_Some_2 kvs (i * 2 + 1)) as [v Hv]; [lia |].
    rewrite (write_kvs_step n kvs i todo h k v _ Hk Hv Hn).
    rewrite (IH (S i) _ (<[k := v]> m0)); [| apply lookup_insert_eq | lia].
    rewrite insert_insert_eq.
    rewrite (drop_S kvs k (i * 2) Hk).
    replace (i * 2 + 1) with (S (i * 2)) in Hv by lia.
    rewrite (drop_S kvs v (S (i * 2)) Hv).
    replace (S (S (i * 2))) with (S i * 2) by lia.
    reflexivity.
Qed.

Lemma take_all_pairs (kvs : list iface) :
  Nat.Even (length kvs) → take (length kvs / 2 * 2) (drop (0 * 2) kvs) = kvs.
Proof.
  intros [c Hc]. change (drop (0 * 2) kvs) with kvs. apply take_ge.
  rewrite Hc.
  rewrite (Nat.mul_comm 2 c), Nat.div_mul by discriminate. lia.
Qed.

Lemma New_exact (kvs : list iface) (h : gmap positive Attributes) :
  Nat.Even (length kvs) →
  New kvs h =
  Returns (Some (fresh (dom h)))
    (<[fresh (dom h) := mkAttributes (set_pairs ∅ kvs)]> h).
Proof.
  intros Heven. unfold New. rewrite (even_parity _ Heven). cbn [negb].
  unfold mbind, M_bind, alloc.
  rewrite (write_kvs_exact _ kvs (length kvs / 2) 0 _ ∅);
    [| apply lookup_insert_eq | apply half_fits].
  rewrite insert_insert_eq, (take_all_pairs kvs Heven). reflexivity.
Qed.

Lemma WithValues_exact (l : positive) (x : Attributes) (kvs : list iface)
    (h : gmap positive Attributes) :
  h !! l = Some x →
  Nat.Even (length kvs) →
  WithValues (Some l) kvs h =
  Returns (Some (fresh (dom h)))
    (<[fresh (dom h) := mkAttributes (set_pairs (m x) kvs)]> h).
Proof.
  intros Hl Heven. unfold WithValues. rewrite (even_parity _ Heven).
  cbn [negb].
  destruct (alloc_fresh (mkAttributes ∅) h) as (n & Halloc & Hfresh).
  assert (n = fresh (dom h)) as Hn.
  { unfold alloc in Halloc. injection Halloc as <- _. reflexivity. }
  rewrite <- Hn.
  assert (Hne : n ≠ l) by (intros ->; congruence).
  assert (Hl' : <[n := mkAttributes ∅]> h !! l = Some x).
  { rewrite lookup_insert_ne by exact Hne. exact Hl. }
  pose proof (range_copy_any_order n (m x) (map_to_list (m x))
                (<[n := mkAttributes ∅]> h) (reflexivity _)
                (lookup_insert_eq _ _ _)) as Hcopy.
  rewrite insert_insert_eq in Hcopy.
  unfold mbind, M_bind.
  rewrite (load_allocated l x h Hl), Halloc.
  rewrite (load_allocated l x _ Hl'), Hcopy.
  rewrite (write_kvs_exact n kvs (length kvs / 2) 0 _ (m x));
    [| apply lookup_insert_eq | apply half_fits].
  rewrite insert_insert_eq, (take_all_pairs kvs Heven). reflexivity.
Qed.


Lemma pairs_ind (P : list iface → Prop) :
  P [] → (∀ k, P [k]) → (∀ k v rest, P rest → P (k :: v :: rest)) →
  ∀ kvs, P kvs.
Proof.
  intros Hnil Hone Hstep kvs.
  assert (H : P kvs ∧ ∀ k, P (k :: kvs)); [| exact (proj1 H)].
  induction kvs as [| v rest [IH1 IH2]].
  - split; [exact Hnil | exact Hone].
  - split; [apply IH2 |]. intros k. apply Hstep. exact IH1.
Qed.

Lemma set_pairs_app (kvs1 kvs2 : list iface) :
  Nat.Even (length kvs1) →
  ∀ m0, set_pairs m0 (kvs1 ++ kvs2) = set_pairs (set_pairs m0 kvs1) kvs2.
Proof.
  induction kvs1 as [| k | k v rest IH] using pairs_ind; intros Heven m0.
  - reflexivity.
  - destruct Heven as [c Hc]. simpl in Hc. lia.
  - simpl. apply IH. destruct Heven as [c Hc]. simpl in Hc.
    exists (c - 1). lia.
Qed.

Lemma set_pairs_dom (kvs : list iface) :
  ∀ m0, dom (set_pairs m0 kvs) = dom m0 ∪ keys_of kvs.
Proof.
  induction kvs as [| k | k v rest IH] using pairs_ind; intros m0; simpl.
  - symmetry. apply (right_id_L ∅ (∪)).
  - symmetry. apply (right_id_L ∅ (∪)).
  - rewrite IH, dom_insert_L.
    rewrite (comm_L (∪) {[ k ]} (dom m0)), <- (assoc_L (∪)). reflexivity.
Qed.

Lemma set_pairs_size (kvs : list iface) :
  ∀ m0, size m0 ≤ size (set_pairs m0 kvs) ≤ size m0 + length kvs / 2.
Proof.
  induction kvs as [| k | k v rest IH] using pairs_ind; intros m0.
  - simpl. lia.
  - simpl. lia.
  - change (set_pairs m0 (k :: v :: rest))
      with (set_pairs (<[k := v]> m0) rest).
    change (length (k :: v :: rest)) with (1 * 2 + length rest).
    rewrite Nat.div_add_l by discriminate.
    specialize (IH (<[k := v]> m0)).
    pose proof (map_size_insert k v m0) as Hsz.
    destruct (m0 !! k); simpl in Hsz; lia.
Qed.

Lemma set_pairs_unset (kvs : list iface) :
  ∀ m0 key, key ∉ keys_of kvs → set_pairs m0 kvs !! key = m0 !! key.
Proof.
  induction kvs as [| k | k v rest IH] using pairs_ind; intros m0 key Hkey;
    simpl in *; [reflexivity | reflexivity |].
  apply not_elem_of_union in Hkey as [Hk Hrest].
  rewrite IH by exact Hrest. apply lookup_insert_ne.
  intros ->. apply Hk. apply elem_of_singleton. reflexivity.
Qed.


(** X1.  For an argument list of even length, [New] allocates one
    Attributes at an address that was free, holding exactly the map that
    writing the pairs from left to right into an empty map leaves; the
    rest of the store is as it was. *)
Theorem New_allocates_pairs (kvs : list iface)
    (h : gmap positive Attributes) :
  Nat.Even (length kvs) →
  ∃ a,
    New kvs h =
      Returns (Some a) (<[a := mkAttributes (set_pairs ∅ kvs)]> h) ∧
    h !! a = None.
Proof.
  intros Heven. exists (fresh (dom h)). split.
  - apply New_exact. exact Heven.
  - apply not_elem_of_dom. apply is_fresh.
Qed.

Lemma New_allocates_pairs_witness :
  ∃ a,
    New samples.kvs0 samples.h0 =
      Returns (Some a)
        (<[a := mkAttributes (set_pairs ∅ samples.kvs0)]> samples.h0) ∧
    samples.h0 !! a = None.
Proof.
  apply (New_allocates_pairs samples.kvs0 samples.h0). exists 3. reflexivity.
Defined.

(** X2.  Deriving twice is deriving once with the two argument lists
    joined: [a.WithValues(kvs1...).WithValues(kvs2...)] and
    [a.WithValues(kvs1..., kvs2...)] hold the same map, so [Value] answers
    every key alike on both. *)
Theorem WithValues_compose (l : positive) (x : Attributes)
    (kvs1 kvs2 : list iface) (h : gmap positive Attributes) :
  h !! l = Some x →
  Nat.Even (length kvs1) →
  Nat.Even (length kvs2) →
  ∃ n1 h1 n2 h2 n h',
    WithValues (Some l) kvs1 h = Returns (Some n1) h1 ∧
    WithValues (Some n1) kvs2 h1 = Returns (Some n2) h2 ∧
    WithValues (Some l) (kvs1 ++ kvs2) h = Returns (Some n) h' ∧
    h2 !! n2 = h' !! n ∧
    ∀ key, ∃ v, Value (Some n2) key h2 = Returns v h2 ∧
                Value (Some n) key h' = Returns v h'.
Proof.
  intros Hl Heven1 Heven2.
  assert (Heven : Nat.Even (length (kvs1 ++ kvs2))).
  { destruct Heven1 as [c1 H1], Heven2 as [c2 H2]. exists (c1 + c2).
    rewrite length_app. lia. }
  pose proof (WithValues_exact l x kvs1 h Hl Heven1) as Hrun1.
  set (n1 := fresh (dom h)) in *.
  set (h1 := <[n1 := mkAttributes (set_pairs (m x) kvs1)]> h) in *.
  assert (Hn1 : h1 !! n1 = Some (mkAttributes (set_pairs (m x) kvs1)))
    by apply lookup_insert_eq.
  pose proof (WithValues_exact n1 _ kvs2 h1 Hn1 Heven2) as Hrun2.
  pose proof (WithValues_exact l x (kvs1 ++ kvs2) h Hl Heven) as Hrun.
  simpl in Hrun2. rewrite <- (set_pairs_app kvs1 kvs2 Heven1) in Hrun2.
  eexists n1, h1, _, _, _, _.
  split; [exact Hrun1 | split; [exact Hrun2 | split; [exact Hrun |]]].
  split; [rewrite !lookup_insert_eq; reflexivity |].
  intros key. eexists. split.
  - apply Value_allocated. apply lookup_insert_eq.
  - rewrite (Value_allocated _ _ key _ (lookup_insert_eq _ _ _)). reflexivity.
Qed.

Lemma WithValues_compose_witness :
  ∃ n1 h1 n2 h2 n h',
    WithValues (Some 1%positive) [IString "k"; IInt 5] samples.h0 =
      Returns (Some n1) h1 ∧
    WithValues (Some n1) [IString "k"; IInt 9] h1 = Returns (Some n2) h2 ∧
    WithValues (Some 1%positive)
      ([IString "k"; IInt 5] ++ [IString "k"; IInt 9]) samples.h0 =
      Returns (Some n) h' ∧
    h2 !! n2 = h' !! n ∧
    ∀ key, ∃ v, Value (Some n2) key h2 = Returns v h2 ∧
                Value (Some n) key h' = Returns v h'.
Proof.
  apply (WithValues_compose 1%positive samples.a0
           [IString "k"; IInt 5] [IString "k"; IInt 9] samples.h0).
  - reflexivity.
  - exists 1. reflexivity.
  - exists 1. reflexivity.
Defined.

(** X3.  [New(kvs1...).WithValues(kvs2...)] holds the same map as
    [New(kvs1..., kvs2...)]. *)
Theorem New_then_WithValues (kvs1 kvs2 : list iface)
    (h : gmap positive Attributes) :
  Nat.Even (length kvs1) →
  Nat.Even (length kvs2) →
  ∃ a h1 n h2 b h',
    New kvs1 h = Returns (Some a) h1 ∧
    WithValues (Some a) kvs2 h1 = Returns (Some n) h2 ∧
    New (kvs1 ++ kvs2) h = Returns (Some b) h' ∧
    h2 !! n = h' !! b ∧
    ∀ key, ∃ v, Value (Some n) key h2 = Returns v h2 ∧
                Value (Some b) key h' = Returns v h'.
Proof.
  intros Heven1 Heven2.
  assert (Heven : Nat.Even (length (kvs1 ++ kvs2))).
  { destruct Heven1 as [c1 H1], Heven2 as [c2 H2]. exists (c1 + c2).
    rewrite length_app. lia. }
  pose proof (New_exact kvs1 h Heven1) as Hrun1.
  set (a := fresh (dom h)) in *.
  set (h1 := <[a := mkAttributes (set_pairs ∅ kvs1)]> h) in *.
  assert (Ha : h1 !! a = Some (mkAttributes (set_pairs ∅ kvs1)))
    by apply lookup_insert_eq.
  pose proof (WithValues_exact a _ kvs2 h1 Ha Heven2) as Hrun2.
  pose proof (New_exact (kvs1 ++ kvs2) h Heven) as Hrun.
  simpl in Hrun2. rewrite <- (set_pairs_app kvs1 kvs2 Heven1) in Hrun2.
  eexists a, h1, _, _, _, _.
  split; [exact Hrun1 | split; [exact Hrun2 | split; [exact Hrun |]]].
  split; [rewrite !lookup_insert_eq; reflexivity |].
  intros key. eexists. split.
  - apply Value_allocated. apply lookup_insert_eq.
  - rewrite (Value_allocated _ _ key _ (lookup_insert_eq _ _ _)). reflexivity.
Qed.

Lemma New_then_WithValues_witness :
  ∃ a h1 n h2 b h',
    New [IString "k"; IInt 5] samples.h0 = Returns (Some a) h1 ∧
    WithValues (Some a) [IString "j"; IInt 9] h1 = Returns (Some n) h2 ∧
    New ([IString "k"; IInt 5] ++ [IString "j"; IInt 9]) samples.h0 =
      Returns (Some b) h' ∧
    h2 !! n = h' !! b ∧
    ∀ key, ∃ v, Value (Some n) key h2 = Returns v h2 ∧
                Value (Some b) key h' = Returns v h'.
Proof.
  apply (New_then_WithValues [IString "k"; IInt 5] [IString "j"; IInt 9]
           samples.h0).
  - exists 1. reflexivity.
  - exists 1. reflexivity.
Defined.

(** X4.  The capacities the maps are made with are enough: the map of
    [New(kvs...)] has at most [len(kvs)/2] keys, and the map of
    [a.WithValues(kvs...)] has at least the keys of [a.m] and at most
    [len(a.m) + len(kvs)/2]. *)
Theorem capacity_suffices (kvs : list iface)
    (h : gmap positive Attributes) :
  Nat.Even (length kvs) →
  (∃ a h' y, New kvs h = Returns (Some a) h' ∧ h' !! a = Some y ∧
             size (m y) ≤ length kvs / 2) ∧
  (∀ l x, h !! l = Some x →
     ∃ n h' y, WithValues (Some l) kvs h = Returns (Some n) h' ∧
               h' !! n = Some y ∧
               size (m x) ≤ size (m y) ≤ size (m x) + length kvs / 2).
Proof.
  intros Heven. split.
  - eexists _, _, _. split; [apply New_exact; exact Heven |].
    split; [apply lookup_insert_eq |]. cbn [m].
    pose proof (set_pairs_size kvs ∅) as Hsz.
    rewrite map_size_empty in Hsz. lia.
  - intros l x Hl.
    eexists _, _, _. split; [apply WithValues_exact; eassumption |].
    split; [apply lookup_insert_eq |]. cbn [m]. apply set_pairs_size.
Qed.

Lemma capacity_suffices_witness :
  (∃ a h' y, New samples.kvs0 ∅ = Returns (Some a) h' ∧
             h' !! a = Some y ∧ size (m y) ≤ length samples.kvs0 / 2) ∧
  (∃ n h' y, WithValues (Some 1%positive) samples.kvs0 samples.h0 =
               Returns (Some n) h' ∧
             h' !! n = Some y ∧
             size (m samples.a0) ≤ size (m y)
               ≤ size (m samples.a0) + length samples.kvs0 / 2).
Proof.
  split.
  - apply (capacity_suffices samples.kvs0 ∅). exists 3. reflexivity.
  - destruct (capacity_suffices samples.kvs0 samples.h0) as [_ HWith].
    + exists 3. reflexivity.
    + apply (HWith 1%positive samples.a0). reflexivity.
Defined.

(** X5.  A derivation drops no key and invents none: the keys of
    [a.WithValues(kvs...)] are those of [a] and those of the pairs of
    [kvs]; the keys of [New(kvs...)] are those of the pairs. *)
Theorem WithValues_keys (kvs : list iface)
    (h : gmap positive Attributes) :
  Nat.Even (length kvs) →
  (∃ a h' y, New kvs h = Returns (Some a) h' ∧ h' !! a = Some y ∧
             dom (m y) = keys_of kvs) ∧
  (∀ l x, h !! l = Some x →
     ∃ n h' y, WithValues (Some l) kvs h = Returns (Some n) h' ∧
               h' !! n = Some y ∧
               dom (m y) = dom (m x) ∪ keys_of kvs).
Proof.
  intros Heven. split.
  - eexists _, _, _. split; [apply New_exact; exact Heven |].
    split; [apply lookup_insert_eq |]. cbn [m].
    rewrite set_pairs_dom, dom_empty_L. apply (left_id_L ∅ (∪)).
  - intros l x Hl.
    eexists _, _, _. split; [apply WithValues_exact; eassumption |].
    split; [apply lookup_insert_eq |]. cbn [m]. apply set_pairs_dom.
Qed.

Lemma WithValues_keys_witness :
  (∃ a h' y, New samples.kvs0 ∅ = Returns (Some a) h' ∧
             h' !! a = Some y ∧ dom (m y) = keys_of samples.kvs0) ∧
  (∃ n h' y, WithValues (Some 1%positive) samples.kvs0 samples.h0 =
               Returns (Some n) h' ∧
             h' !! n = Some y ∧
             dom (m y) = dom (m samples.a0) ∪ keys_of samples.kvs0).
Proof.
  split.
  - apply (WithValues_keys samples.kvs0 ∅). exists 3. reflexivity.
  - destruct (WithValues_keys samples.kvs0 samples.h0) as [_ HWith].
    + exists 3. reflexivity.
    + apply (HWith 1%positive samples.a0). reflexivity.
Defined.

(** X7.  A nil receiver: [Value] panics on the nil dereference; and
    [WithValues] checks the argument list first, so an even-length list
    ends in the nil dereference and an odd-length one in the length
    panic.  The store is left as it was. *)
Theorem nil_receiver_panics (kvs : list iface) (key : iface)
    (h : gmap positive Attributes) :
  Value None key h = Panics nil_dereference h ∧
  (Nat.Even (length kvs) →
   WithValues None kvs h = Panics nil_dereference h) ∧
  (Nat.Odd (length kvs) →
   WithValues None kvs h = Panics (unexpected_input kvs) h).
Proof.
  split; [reflexivity | split].
  - intros Heven. unfold WithValues. rewrite (even_parity _ Heven).
    reflexivity.
  - intros Hodd. unfold WithValues. rewrite (odd_parity _ Hodd).
    reflexivity.
Qed.

Lemma nil_receiver_panics_witness :
  WithValues None [IString "k"; IInt 1] samples.h0 =
    Panics nil_dereference samples.h0 ∧
  WithValues None [IString "k"] samples.h0 =
    Panics (unexpected_input [IString "k"]) samples.h0.
Proof.
  split.
  - apply (proj1 (proj2 (nil_receiver_panics [IString "k"; IInt 1] INil
                           samples.h0))).
    exists 1. reflexivity.
  - apply (proj2 (proj2 (nil_receiver_panics [IString "k"] INil samples.h0))).
    exists 0. reflexivity.
Defined.

End attributes_more.

(* ------------------------------------------------------------------ *)
(** ** attributes over every interface value: nil receivers, keys that
       cannot be hashed, NaN keys *)
(* ------------------------------------------------------------------ *)

Section attributes_any_properties.
Import golang attributes_any.
Local Open Scope nat_scope.

Lemma any_write_kvs_step (n : positive) (kvs : list any) (i todo : nat)
    (h : gmap positive Attributes) (k v : any) (x : Attributes) (x' : gomap) :
  kvs !! (i * 2) = Some k → kvs !! (i * 2 + 1) = Some v →
  h !! n = Some x → assign (m x) k v = Some x' →
  write_kvs n kvs i (S todo) h =
  write_kvs n kvs (S i) todo (<[n := mkAttributes x']> h).
Proof.
  intros Hk Hv Hn Hx'. simpl.
  unfold mbind, M_bind, index, map_store. rewrite Hk, Hv. simpl.
  rewrite Hn, Hx'. reflexivity.
Qed.

Lemma assign_hashable (x : gomap) (k v : any) :
  hashable k = true → is_Some (assign x k v).
Proof. destruct k; [eauto | eauto | discriminate]. Qed.

Lemma any_write_kvs_returns (n : positive) (kvs : list any) (todo : nat) :
  ∀ (i : nat) (h : gmap positive Attributes) (x : Attributes),
  h !! n = Some x →
  (i + todo) * 2 ≤ length kvs →
  keys_hashable kvs →
  ∃ x', write_kvs n kvs i todo h = Returns tt (<[n := x']> h).
Proof.
  induction todo as [| todo IH]; intros i h x Hn Hlen Hkeys.
  - exists x. simpl. unfold mret, M_ret. f_equal. symmetry.
    apply insert_id. exact Hn.
  - destruct (lookup_lt_is_Some_2 kvs (i * 2)) as [k Hk]; [lia |].
    destruct (lookup_lt_is_Some_2 kvs (i * 2 + 1)) as [v Hv]; [lia |].
    destruct (assign_hashable (m x) k v (Hkeys i k Hk)) as [x' Hx'].
    rewrite (any_write_kvs_step n kvs i todo h k v x x' Hk Hv Hn Hx').
    destruct (IH (S i) (<[n := mkAttributes x']> h) (mkAttributes x'))
      as [x'' Hrun]; [apply lookup_insert_eq | lia | exact Hkeys |].
    exists x''. rewrite Hrun. f_equal. apply insert_insert_eq.
Qed.

(** The first key that cannot be hashed stops the loop with a panic. *)
Lemma any_write_kvs_panics (n : positive) (kvs : list any) (todo : nat) :
  ∀ (i : nat) (h : gmap positive Attributes) (x : Attributes) (j : nat)
    (k : any),
  h !! n = Some x →
  (i + todo) * 2 ≤ length kvs →
  i ≤ j < i + todo → kvs !! (j * 2) = Some k → hashable k = false →
  ∃ h', write_kvs n kvs i todo h = Panics unhashable h'.
Proof.
  induction todo as [| todo IH]; intros i h x j kj Hn Hlen Hj Hkj Hbad;
    [lia |].
  destruct (lookup_lt_is_Some_2 kvs (i * 2)) as [k Hk]; [lia |].
  destruct (lookup_lt_is_Some_2 kvs (i * 2 + 1)) as [v Hv]; [lia |].
  destruct (assign (m x) k v) as [x' |] eqn:Hx'.
  - rewrite (any_write_kvs_step n kvs i todo h k v x x' Hk Hv Hn Hx').
    apply (IH (S i) _ (mkAttributes x') j kj);
      [apply lookup_insert_eq | lia | | exact Hkj | exact Hbad].
    assert (j ≠ i); [| lia]. intros ->. rewrite Hk in Hkj.
    injection Hkj as ->. destruct kj; discriminate.
  - exists h. simpl. unfold mbind, M_bind, index, map_store.
    rewrite Hk, Hv. simpl. rewrite Hn, Hx'. reflexivity.
Qed.

Lemma any_range_copy_app (n : positive) (l1 l2 : list (any * any))
    (h : gmap positive Attributes) :
  range_copy n (l1 ++ l2) h =
  match range_copy n l1 h with
  | Returns _ h' => range_copy n l2 h'
  | Panics msg h' => Panics msg h'
  end.
Proof.
  revert h. induction l1 as [| [k v] l1 IH]; intros h; [reflexivity |].
  simpl. unfold mbind, M_bind. destruct (map_store n k v h); [apply IH |].
  reflexivity.
Qed.

Lemma any_range_copy_plain (n : positive) (l : list (iface * any)) :
  ∀ (h : gmap positive Attributes) (x0 : gomap),
  NoDup l.*1 →
  h !! n = Some (mkAttributes x0) →
  ∃ e1 : gmap iface any,
    range_copy n ((λ kv, (Plain kv.1, kv.2)) <$> l) h =
      Returns tt (<[n := mkAttributes (mkMap e1 (nans x0))]> h) ∧
    ∀ key, e1 !! key =
           match (list_to_map l : gmap iface any) !! key with
           | Some v => Some v
           | None => entries x0 !! key
           end.
Proof.
  induction l as [| [k v] rest IH]; intros h x0 Hnodup Hn.
  - exists (entries x0). split.
    + simpl. unfold mret, M_ret. f_equal. symmetry. apply insert_id.
      destruct x0; exact Hn.
    + intros key. simpl. rewrite lookup_empty. reflexivity.
  - simpl in Hnodup. apply NoDup_cons in Hnodup as [Hfresh Hnodup].
    destruct (IH (<[n := mkAttributes
                          (mkMap (<[k := v]> (entries x0)) (nans x0))]> h)
                (mkMap (<[k := v]> (entries x0)) (nans x0)))
      as (e1 & Hrun & Hlook); [exact Hnodup | apply lookup_insert_eq |].
    exists e1. split.
    + rewrite fmap_cons. cbn [range_copy fst snd].
      unfold mbind, M_bind, map_store. rewrite Hn. cbn [m assign].
      rewrite Hrun. f_equal. apply insert_insert_eq.
    + intros key. rewrite Hlook. simpl.
      destruct (decide (k = key)) as [-> | Hne].
      * rewrite (not_elem_of_list_to_map_1 _ _ Hfresh).
        rewrite !lookup_insert_eq. reflexivity.
      * rewrite !(lookup_insert_ne _ k key) by exact Hne. reflexivity.
Qed.

Lemma any_range_copy_nans (n : positive) (vs : list any) :
  ∀ (h : gmap positive Attributes) (x0 : gomap),
  h !! n = Some (mkAttributes x0) →
  range_copy n (pair NaN <$> vs) h =
  Returns tt (<[n := mkAttributes (mkMap (entries x0) (nans x0 ++ vs))]> h).
Proof.
  induction vs as [| v vs IH]; intros h x0 Hn.
  - simpl. unfold mret, M_ret. f_equal. symmetry. rewrite app_nil_r.
    apply insert_id. destruct x0; exact Hn.
  - rewrite fmap_cons. cbn [range_copy].
    unfold mbind, M_bind, map_store. rewrite Hn. cbn [m assign].
    rewrite (IH _ (mkMap (entries x0) (nans x0 ++ [v])))
      by apply lookup_insert_eq.
    cbn [entries nans]. rewrite insert_insert_eq, <- app_assoc. reflexivity.
Qed.

(** The range loop of [WithValues] copies the map, entries under NaN
    keys included. *)
Lemma any_range_copy (n : positive) (x : gomap)
    (h : gmap positive Attributes) :
  h !! n = Some (mkAttributes make) →
  range_copy n (range x) h = Returns tt (<[n := mkAttributes x]> h).
Proof.
  intros Hn. unfold range. rewrite any_range_copy_app.
  destruct (any_range_copy_plain n (map_to_list (entries x)) h make
              (NoDup_fst_map_to_list _) Hn) as (e1 & Hrun & Hlook).
  rewrite Hrun.
  rewrite (any_range_copy_nans n (nans x) _ (mkMap e1 (nans make)))
    by apply lookup_insert_eq.
  simpl. rewrite insert_insert_eq. do 3 f_equal.
  assert (e1 = entries x) as ->.
  { apply map_eq. intros key. rewrite Hlook, list_to_map_to_list.
    simpl. rewrite lookup_empty. destruct (entries x !! key); reflexivity. }
  destruct x; reflexivity.
Qed.


Lemma any_load_allocated (l : positive) (x : Attributes)
    (h : gmap positive Attributes) :
  h !! l = Some x → load (Some l) h = Returns x h.
Proof. intros H. unfold load. rewrite H. reflexivity. Qed.

(** [WithValues] up to its last loop: the new object holds a copy of the
    receiver's map. *)
Lemma any_WithValues_copy (l : positive) (x : Attributes) (kvs : list any)
    (h : gmap positive Attributes) :
  h !! l = Some x →
  Nat.Even (length kvs) →
  fresh (dom h) ≠ l ∧
  WithValues (Some l) kvs h =
  match write_kvs (fresh (dom h)) kvs 0 (length kvs / 2)
          (<[fresh (dom h) := mkAttributes (m x)]> h) with
  | Returns _ h' => Returns (Some (fresh (dom h))) h'
  | Panics msg h' => Panics msg h'
  end.
Proof.
  intros Hl Heven.
  assert (Hfresh : h !! fresh (dom h) = None)
    by (apply not_elem_of_dom, is_fresh).
  assert (Hne : fresh (dom h) ≠ l) by (intros Heq; congruence).
  split; [exact Hne |].
  unfold WithValues. rewrite (even_parity _ Heven). cbn [negb].
  unfold mbind, M_bind, alloc.
  rewrite (any_load_allocated l x h Hl).
  rewrite (any_load_allocated l x (<[fresh (dom h) := mkAttributes make]> h))
    by (rewrite lookup_insert_ne by exact Hne; exact Hl).
  rewrite (any_range_copy _ (m x)) by apply lookup_insert_eq.
  rewrite insert_insert_eq.
  destruct (write_kvs _ _ _ _ _); reflexivity.
Qed.

Lemma any_New_run (kvs : list any) (h : gmap positive Attributes) :
  Nat.Even (length kvs) →
  New kvs h =
  match write_kvs (fresh (dom h)) kvs 0 (length kvs / 2)
          (<[fresh (dom h) := mkAttributes make]> h) with
  | Returns _ h' => Returns (Some (fresh (dom h))) h'
  | Panics msg h' => Panics msg h'
  end.
Proof.
  intros Heven. unfold New. rewrite (even_parity _ Heven). cbn [negb].
  unfold mbind, M_bind, alloc. destruct (write_kvs _ _ _ _ _); reflexivity.
Qed.

(** C8, as the code has it.  An argument list of odd length makes [New]
    and [WithValues] panic at once, with the message built from the
    length and the store untouched.  An argument list of even length
    whose keys can all be hashed makes [New] return, and [WithValues] too
    on a receiver that is an allocated Attributes.  An even length does
    not save the other calls: [WithValues] on the nil receiver panics on
    the dereference, and a key that cannot be hashed makes the map write
    of [New] and of [WithValues] panic. *)
Theorem length_check_before_map_writes (kvs : list any)
    (a : option positive) (l : positive) (h : gmap positive Attributes) :
  (Nat.Odd (length kvs) →
   New kvs h = Panics (unexpected_input kvs) h ∧
   WithValues a kvs h = Panics (unexpected_input kvs) h) ∧
  (Nat.Even (length kvs) → keys_hashable kvs →
   (∃ p h', New kvs h = Returns (Some p) h') ∧
   (is_Some (h !! l) →
    ∃ n h', WithValues (Some l) kvs h = Returns (Some n) h')) ∧
  (Nat.Even (length kvs) →
   WithValues None kvs h = Panics attributes.nil_dereference h) ∧
  (Nat.Even (length kvs) →
   ∀ j k, kvs !! (j * 2) = Some k → hashable k = false →
     (∃ h', New kvs h = Panics unhashable h') ∧
     (is_Some (h !! l) →
      ∃ h', WithValues (Some l) kvs h = Panics unhashable h')).
Proof.
  split; [| split; [| split]].
  - intros Hodd. unfold New, WithValues. rewrite (odd_parity _ Hodd).
    split; reflexivity.
  - intros Heven Hkeys. split.
    + rewrite (any_New_run kvs h Heven).
      destruct (any_write_kvs_returns (fresh (dom h)) kvs (length kvs / 2) 0
                  (<[fresh (dom h) := mkAttributes make]> h)
                  (mkAttributes make)) as [x' Hrun];
        [apply lookup_insert_eq | apply half_fits | exact Hkeys |].
      rewrite Hrun. eauto.
    + intros [x Hl].
      destruct (any_WithValues_copy l x kvs h Hl Heven) as [_ Hcopy].
      rewrite Hcopy.
      destruct (any_write_kvs_returns (fresh (dom h)) kvs (length kvs / 2) 0
                  (<[fresh (dom h) := mkAttributes (m x)]> h)
                  (mkAttributes (m x))) as [x' Hrun];
        [apply lookup_insert_eq | apply half_fits | exact Hkeys |].
      rewrite Hrun. eauto.
  - intros Heven. unfold WithValues. rewrite (even_parity _ Heven).
    reflexivity.
  - intros Heven j k Hk Hbad.
    assert (Hj : 0 ≤ j < 0 + length kvs / 2).
    { apply lookup_lt_Some in Hk. destruct Heven as [c Hc]. rewrite Hc in *.
      rewrite (Nat.mul_comm 2 c), Nat.div_mul by discriminate. lia. }
    split.
    + rewrite (any_New_run kvs h Heven).
      destruct (any_write_kvs_panics (fresh (dom h)) kvs (length kvs / 2) 0
                  (<[fresh (dom h) := mkAttributes make]> h)
                  (mkAttributes make) j k) as [h' Hrun];
        [apply lookup_insert_eq | apply half_fits | exact Hj | exact Hk
        | exact Hbad |].
      rewrite Hrun. eauto.
    + intros [x Hl].
      destruct (any_WithValues_copy l x kvs h Hl Heven) as [_ Hcopy].
      rewrite Hcopy.
      destruct (any_write_kvs_panics (fresh (dom h)) kvs (length kvs / 2) 0
                  (<[fresh (dom h) := mkAttributes (m x)]> h)
                  (mkAttributes (m x)) j k) as [h' Hrun];
        [apply lookup_insert_eq | apply half_fits | exact Hj | exact Hk
        | exact Hbad |].
      rewrite Hrun. eauto.
Qed.

Lemma keys_hashable_sample :
  keys_hashable [NaN; Plain (IInt 2); Plain (IString "k"); Slice []].
Proof.
  intros j k Hk.
  destruct j as [| [| j]]; simpl in Hk; [| | discriminate Hk];
    injection Hk as <-; reflexivity.
Qed.

Lemma length_check_before_map_writes_witness :
  (New [Plain (IString "k")] samples.g0 =
     Panics (unexpected_input [Plain (IString "k")]) samples.g0 ∧
   WithValues None [Plain (IString "k")] samples.g0 =
     Panics (unexpected_input [Plain (IString "k")]) samples.g0) ∧
  ((∃ p h', New [NaN; Plain (IInt 2); Plain (IString "k"); Slice []]
              samples.g0 = Returns (Some p) h') ∧
   (∃ n h', WithValues (Some 1%positive)
              [NaN; Plain (IInt 2); Plain (IString "k"); Slice []]
              samples.g0 = Returns (Some n) h')) ∧
  WithValues None [] samples.g0 =
    Panics attributes.nil_dereference samples.g0 ∧
  ((∃ h', New [Slice []; Plain INil] samples.g0 = Panics unhashable h') ∧
   (∃ h', WithValues (Some 1%positive) [Slice []; Plain INil] samples.g0 =
            Panics unhashable h')).
Proof.
  split; [| split; [| split]].
  - apply (proj1 (length_check_before_map_writes [Plain (IString "k")] None
                    1%positive samples.g0)).
    exists 0. reflexivity.
  - destruct (proj1 (proj2 (length_check_before_map_writes
                [NaN; Plain (IInt 2); Plain (IString "k"); Slice []] None
                1%positive samples.g0))) as [HNew HWith].
    + exists 2. reflexivity.
    + exact keys_hashable_sample.
    + split; [exact HNew | apply HWith; eexists; reflexivity].
  - apply (proj1 (proj2 (proj2 (length_check_before_map_writes [] None
                                  1%positive samples.g0)))).
    exists 0. reflexivity.
  - destruct (proj2 (proj2 (proj2 (length_check_before_map_writes
                [Slice []; Plain INil] None 1%positive samples.g0)))
                ltac:(exists 1; reflexivity) 0 (Slice []) eq_refl eq_refl)
      as [HNew HWith].
    split; [exact HNew | apply HWith; eexists; reflexivity].
Defined.

(** C8 as stated fails: an argument list of even length does not make the
    call return.  [WithValues] with no arguments on the nil receiver
    panics, and [New] with a slice as key panics in its map write, leaving
    the object it had allocated. *)
Lemma even_length_can_panic :
  WithValues None [] ∅ = Panics attributes.nil_dereference ∅ ∧
  New [Slice []; Plain INil] ∅ =
    Panics unhashable {[ 1%positive := mkAttributes make ]}.
Proof. split; reflexivity. Qed.

(** X6.  Setting one key and reading back.  On the result of
    [a.WithValues(k, v)], with [k] a key that can be hashed: [Value(k)] is
    [v] when [k] is equal to itself, and nil when [k] is a NaN, whose
    entry no lookup finds; [Value] of any other key that can be hashed is
    what [a] gives for it.  The reads leave the store unchanged. *)
Theorem pair_lookup_unless_NaN (l : positive) (x : Attributes)
    (k v key : any) (h : gmap positive Attributes) :
  h !! l = Some x →
  hashable k = true →
  ∃ n h',
    WithValues (Some l) [k; v] h = Returns (Some n) h' ∧
    (k ≠ NaN → Value (Some n) k h' = Returns v h') ∧
    (k = NaN → Value (Some n) k h' = Returns (Plain INil) h') ∧
    (key ≠ k → hashable key = true →
     ∃ r, Value (Some l) key h = Returns r h ∧
          Value (Some n) key h' = Returns r h').
Proof.
  intros Hl Hk.
  assert (Heven : Nat.Even (length [k; v])) by (exists 1; reflexivity).
  destruct (any_WithValues_copy l x [k; v] h Hl Heven) as [Hne Hcopy].
  destruct (assign_hashable (m x) k v Hk) as [x' Hx'].
  change (length [k; v] / 2) with 1 in Hcopy.
  rewrite (any_write_kvs_step _ [k; v] 0 0 _ k v (mkAttributes (m x)) x'
             eq_refl eq_refl (lookup_insert_eq _ _ _) Hx') in Hcopy.
  rewrite insert_insert_eq in Hcopy. cbn [write_kvs] in Hcopy.
  unfold mret, M_ret in Hcopy.
  set (n := fresh (dom h)) in *.
  exists n, (<[n := mkAttributes x']> h).
  split; [exact Hcopy |].
  assert (HVn : ∀ q, Value (Some n) q (<[n := mkAttributes x']> h) =
                     match access x' q with
                     | Some r => Returns r (<[n := mkAttributes x']> h)
                     | None => Panics unhashable (<[n := mkAttributes x']> h)
                     end).
  { intros q. unfold Value, mbind, M_bind.
    rewrite (any_load_allocated n (mkAttributes x'))
      by apply lookup_insert_eq.
    cbn [m]. destruct (access x' q); reflexivity. }
  split; [| split].
  - intros HNaN. rewrite HVn. destruct k as [q | | ];
      [| contradiction | discriminate Hk].
    injection Hx' as <-. cbn [access entries].
    rewrite lookup_insert_eq. reflexivity.
  - intros ->. rewrite HVn. reflexivity.
  - intros Hkey Hhash.
    assert (Haccess : access x' key = access (m x) key).
    { destruct key as [q | | ]; [| reflexivity | discriminate Hhash].
      destruct k as [q' | | ]; [| | discriminate Hk];
        injection Hx' as <-; cbn [access entries]; [| reflexivity].
      rewrite lookup_insert_ne by congruence. reflexivity. }
    destruct (access (m x) key) as [r |] eqn:Hr.
    + exists r. split.
      * unfold Value, mbind, M_bind. rewrite (any_load_allocated l x h Hl).
        rewrite Hr. reflexivity.
      * rewrite HVn, Haccess. reflexivity.
    + destruct key; discriminate.
Qed.

Lemma pair_lookup_unless_NaN_witness :
  (∃ n h',
     WithValues (Some 1%positive) [Plain (IString "j"); Plain (IInt 7)]
       samples.g0 = Returns (Some n) h' ∧
     Value (Some n) (Plain (IString "j")) h' = Returns (Plain (IInt 7)) h' ∧
     ∃ r, Value (Some 1%positive) (Plain (IString "k")) samples.g0 =
            Returns r samples.g0 ∧
          Value (Some n) (Plain (IString "k")) h' = Returns r h') ∧
  (∃ n h',
     WithValues (Some 1%positive) [NaN; Plain (IInt 7)] samples.g0 =
       Returns (Some n) h' ∧
     Value (Some n) NaN h' = Returns (Plain INil) h').
Proof.
  split.
  - destruct (pair_lookup_unless_NaN 1%positive samples.b0
                (Plain (IString "j")) (Plain (IInt 7)) (Plain (IString "k"))
                samples.g0 eq_refl eq_refl)
      as (n & h' & Hrun & Hk & _ & Hother).
    exists n, h'. split; [exact Hrun |].
    split; [apply Hk; discriminate |].
    apply Hother; [discriminate | reflexivity].
  - destruct (pair_lookup_unless_NaN 1%positive samples.b0 NaN
                (Plain (IInt 7)) NaN samples.g0 eq_refl eq_refl)
      as (n & h' & Hrun & _ & HNaN & _).
    exists n, h'. split; [exact Hrun |]. apply HNaN. reflexivity.
Defined.

End attributes_any_properties.

(* ------------------------------------------------------------------ *)
(** ** status: errors made by the package; connectivity *)
(* ------------------------------------------------------------------ *)

Section status_more.
Import golang internal_status.

(** X8.  [Code] and [Convert] agree: the code [Code(err)] reports is the
    code of the Status that [Convert(err)] returns, for the nil error, a
    recognised error and an unrecognised one alike. *)
Theorem Code_agrees_with_Convert (err : error) :
  status.Code err = Status_Code (status.Convert err).
Proof.
  destruct err as [e |]; [| reflexivity].
  unfold status.Code, status.Convert, status.FromError.
  destruct (err_GRPCStatus e) as [se |]; reflexivity.
Qed.

(** X9.  The code put into an error comes back out: [Code] of
    [Error(c, msg)], of [Errorf(c, format, a...)] and of [ErrorProto(p)]
    is [c], [c] and the code of [p], for OK as for any other code; and
    [Errorf] and [ErrorProto] give the nil error exactly for the code OK,
    whatever message or details come with it. *)
Theorem Code_of_package_errors (CodeString : Z → string) (c : Z)
    (msg format : string) (a : list iface) (p : spb.Status) :
  status.Code (status.Error CodeString c msg) = c ∧
  status.Code (status.Errorf CodeString c format a) = c ∧
  status.Code (status.ErrorProto CodeString p) = spb.Code p ∧
  (status.Errorf CodeString c format a = None ↔ c = codes.OK) ∧
  (status.ErrorProto CodeString p = None ↔ spb.Code p = codes.OK).
Proof.
  assert (HCode : ∀ s, status.Code (Err CodeString s) = code s).
  { intros s. unfold Err. destruct (decide (code s = codes.OK)) as [-> | Hne].
    - reflexivity.
    - reflexivity. }
  repeat split.
  - apply (HCode (status.New c msg)).
  - apply (HCode (status.New c (fmt.Sprintf format a))).
  - apply (HCode (status.FromProto p)).
  - unfold status.Errorf, status.Error. rewrite Err_None_iff. intros H. exact H.
  - intros ->. reflexivity.
  - unfold status.ErrorProto. rewrite Err_None_iff. intros H. exact H.
  - intros H. unfold status.ErrorProto. apply Err_None_iff. exact H.
Qed.

(** X10.  An error made by this package with a code other than OK is
    recognised by [FromError], which returns the very Status it was made
    from: code, message and details. *)
Theorem package_errors_recognised (CodeString : Z → string) (c : Z)
    (msg format : string) (a : list iface) (p : spb.Status) :
  c ≠ codes.OK →
  spb.Code p ≠ codes.OK →
  status.FromError (status.Error CodeString c msg) =
    (Some (status.New c msg), true) ∧
  status.FromError (status.Errorf CodeString c format a) =
    (Some (status.Newf c format a), true) ∧
  status.FromError (status.ErrorProto CodeString p) =
    (Some (status.FromProto p), true) ∧
  (Proto <$> status.Convert (status.ErrorProto CodeString p)) = Some p.
Proof.
  intros Hc Hp.
  assert (HFrom : ∀ s, code s ≠ codes.OK →
            status.FromError (Err CodeString s) = (Some s, true)).
  { intros s Hs. unfold Err. rewrite decide_False by exact Hs. reflexivity. }
  split; [apply (HFrom (status.New c msg)); exact Hc |].
  split; [apply (HFrom (status.New c (fmt.Sprintf format a))); exact Hc |].
  split; [apply (HFrom (status.FromProto p)); exact Hp |].
  unfold status.Convert, status.ErrorProto.
  rewrite (HFrom (status.FromProto p) Hp). simpl.
  destruct p; reflexivity.
Qed.

Lemma package_errors_recognised_witness :
  status.FromError (status.Error (λ _, "NOT_FOUND") codes.NotFound "gone") =
    (Some (status.New codes.NotFound "gone"), true) ∧
  status.FromError
    (status.Errorf (λ _, "NOT_FOUND") codes.NotFound "no %s" [IString "x"]) =
    (Some (status.Newf codes.NotFound "no %s" [IString "x"]), true) ∧
  status.FromError
    (status.ErrorProto (λ _, "NOT_FOUND")
       (spb.mkStatus 5 "gone" [spb.mkAny "type.googleapis.com/x" []])) =
    (Some (status.FromProto
             (spb.mkStatus 5 "gone" [spb.mkAny "type.googleapis.com/x" []])),
     true) ∧
  (Proto <$> status.Convert
     (status.ErrorProto (λ _, "NOT_FOUND")
        (spb.mkStatus 5 "gone" [spb.mkAny "type.googleapis.com/x" []]))) =
    Some (spb.mkStatus 5 "gone" [spb.mkAny "type.googleapis.com/x" []]).
Proof.
  apply (package_errors_recognised (λ _, "NOT_FOUND") codes.NotFound "gone"
           "no %s" [IString "x"]
           (spb.mkStatus 5 "gone" [spb.mkAny "type.googleapis.com/x" []])).
  - discriminate.
  - discriminate.
Defined.

(** X11.  [FromContextError] returns the nil Status only for the nil
    error.  For any other error, whether or not it carries a Status of
    its own, the result has the error's text as message, no details and
    one of the three codes DeadlineExceeded, Canceled and Unknown, never
    OK; so turning it back into an error never gives nil. *)
Theorem FromContextError_shape (CodeString : Z → string) (err : error) :
  (status.FromContextError err = None ↔ err = None) ∧
  ∀ e, err = Some e →
    ∃ c, status.FromContextError err = Some (status.New c (err_Error e)) ∧
         (c = codes.DeadlineExceeded ∨ c = codes.Canceled ∨
          c = codes.Unknown) ∧
         Err CodeString (status.New c (err_Error e)) ≠ None.
Proof.
  split.
  - destruct err as [e |]; [| split; reflexivity].
    unfold status.FromContextError.
    split; [| discriminate].
    destruct (error_eq _ _); [discriminate |].
    destruct (error_eq _ _); discriminate.
  - intros e ->. unfold status.FromContextError.
    destruct (error_eq (Some e) context.DeadlineExceeded).
    { eexists. split; [reflexivity |]. split; [auto |]. discriminate. }
    destruct (error_eq (Some e) context.Canceled).
    { eexists. split; [reflexivity |]. split; [auto |]. discriminate. }
    eexists. split; [reflexivity |]. split; [auto |]. discriminate.
Qed.

Lemma FromContextError_shape_witness :
  ∃ c, status.FromContextError (Some samples.quota_error) =
         Some (status.New c "quota exceeded") ∧
       (c = codes.DeadlineExceeded ∨ c = codes.Canceled ∨
        c = codes.Unknown) ∧
       Err (λ _, "UNKNOWN") (status.New c "quota exceeded") ≠ None.
Proof.
  apply (proj2 (FromContextError_shape (λ _, "UNKNOWN")
                  (Some samples.quota_error)) samples.quota_error).
  reflexivity.
Defined.

End status_more.

Section connectivity_properties.
Import golang.
Local Open Scope Z_scope.

Lemma Sprintf_state (s : Z) :
  fmt.Sprintf "unknown connectivity state: %d" [IInt s] =
  ("unknown connectivity state: " +:+ pretty s)%string.
Proof.
  rewrite <- (append_empty_r ("unknown connectivity state: " +:+ pretty s)).
  reflexivity.
Qed.

(** X12.  [String] names the five declared states without logging
    anything, and never calls one of them "Invalid-State"; every other
    value gives "Invalid-State" and one call to [grpclog.Errorf], whose
    message is "unknown connectivity state: " and the value in decimal. *)
Theorem State_String_declared (s : Z) :
  (0 ≤ s ≤ 4 →
   (connectivity.String s).2 = [] ∧
   (connectivity.String s).1 ≠ "Invalid-State") ∧
  (¬ (0 ≤ s ≤ 4) →
   connectivity.String s =
     ("Invalid-State", [("unknown connectivity state: %d", [IInt s])]) ∧
   fmt.Sprintf "unknown connectivity state: %d" [IInt s] =
     ("unknown connectivity state: " +:+ pretty s)%string).
Proof.
  split.
  - intros Hs.
    assert (s = 0 ∨ s = 1 ∨ s = 2 ∨ s = 3 ∨ s = 4) as Hcases by lia.
    destruct Hcases as [-> | [-> | [-> | [-> | ->]]]];
      (split; [reflexivity | discriminate]).
  - intros Hs. split; [| apply Sprintf_state].
    unfold connectivity.String, connectivity.Idle, connectivity.Connecting,
      connectivity.Ready, connectivity.TransientFailure,
      connectivity.Shutdown.
    rewrite !decide_False by lia. reflexivity.
Qed.

Lemma State_String_declared_witness :
  ((connectivity.String connectivity.Ready).2 = [] ∧
   (connectivity.String connectivity.Ready).1 ≠ "Invalid-State") ∧
  (connectivity.String 5 =
     ("Invalid-State", [("unknown connectivity state: %d", [IInt 5])]) ∧
   fmt.Sprintf "unknown connectivity state: %d" [IInt 5] =
     ("unknown connectivity state: " +:+ pretty 5)%string).
Proof.
  split.
  - apply (proj1 (State_String_declared connectivity.Ready)).
    unfold connectivity.Ready. lia.
  - apply (proj2 (State_String_declared 5)). lia.
Defined.

(** X13.  The name tells the state: a declared state and any value with
    the same [String] are the same state. *)
Theorem State_String_injective (s1 s2 : Z) :
  0 ≤ s1 ≤ 4 →
  (connectivity.String s1).1 = (connectivity.String s2).1 →
  s1 = s2.
Proof.
  intros Hs1.
  assert (s1 = 0 ∨ s1 = 1 ∨ s1 = 2 ∨ s1 = 3 ∨ s1 = 4) as Hcases by lia.
  unfold connectivity.String at 2.
  unfold connectivity.Idle, connectivity.Connecting, connectivity.Ready,
    connectivity.TransientFailure, connectivity.Shutdown.
  destruct Hcases as [-> | [-> | [-> | [-> | ->]]]];
    repeat case_decide; subst; simpl; intros Hname;
    first [reflexivity | discriminate Hname].
Qed.

Lemma State_String_injective_witness :
  connectivity.TransientFailure = 3.
Proof.
  apply (State_String_injective connectivity.TransientFailure 3).
  - unfold connectivity.TransientFailure. lia.
  - reflexivity.
Defined.

End connectivity_properties.

(* ------------------------------------------------------------------ *)
(** ** grpclog: severities, the environment, verbosity *)
(* ------------------------------------------------------------------ *)

Section strconv_properties.
Local Open Scope Z_scope.

Lemma digit_pretty_N_char (d : N) :
  (d < 10)%N → strconv.digit (pretty_N_char d) = Some (Z.of_N d).
Proof.
  intros Hd.
  assert (d = 0 ∨ d = 1 ∨ d = 2 ∨ d = 3 ∨ d = 4 ∨ d = 5 ∨ d = 6 ∨ d = 7 ∨
          d = 8 ∨ d = 9)%N as Hcases by lia.
  destruct Hcases
    as [-> | [-> | [-> | [-> | [-> | [-> | [-> | [-> | [-> | ->]]]]]]]]];
    reflexivity.
Qed.

(** Reading the digits that [pretty_N_go] puts before [s] multiplies the
    number read so far by a power of ten and adds [x]. *)
Lemma digits_pretty_N_go (x : N) :
  ∃ p : Z, ∀ (acc : Z) (s : string),
    strconv.digits acc (pretty_N_go x s) =
    strconv.digits (acc * p + Z.of_N x) s.
Proof.
  induction (N.lt_wf_0 x) as [x _ IH].
  destruct (decide (x = 0)%N) as [-> | Hx].
  - exists 1. intros acc s. rewrite pretty_N_go_0. f_equal. lia.
  - destruct (IH (x `div` 10)%N) as [p Hp].
    { apply N.div_lt; lia. }
    exists (p * 10). intros acc s.
    rewrite pretty_N_go_step by lia. rewrite Hp. simpl.
    rewrite digit_pretty_N_char by (apply N.mod_lt; discriminate).
    f_equal. rewrite N2Z.inj_mod, N2Z.inj_div.
    pose proof (Z.div_mod (Z.of_N x) 10 ltac:(discriminate)). 
    change (Z.of_N 10) with 10. lia.
Qed.

Lemma digits_pretty_N (x : N) :
  strconv.digits 0 (pretty x) = Some (Z.of_N x) ∧ pretty x ≠ "".
Proof.
  unfold pretty, pretty_N. destruct (decide (x = 0)%N) as [-> | Hx].
  - split; [reflexivity | discriminate].
  - destruct (digits_pretty_N_go x) as [p Hp].
    assert (Hd : strconv.digits 0 (pretty_N_go x "") = Some (Z.of_N x)).
    { rewrite Hp. reflexivity. }
    split; [exact Hd |]. intros Hempty. rewrite Hempty in Hd.
    simpl in Hd. injection Hd as Hd. lia.
Qed.

Lemma Atoi_unsigned (s : string) (n : Z) :
  strconv.digits 0 s = Some n → s ≠ "" → 0 ≤ n ≤ 2 ^ 63 - 1 →
  strconv.Atoi s = Some n.
Proof.
  intros Hd Hs Hn. destruct s as [| c rest]; [contradiction |].
  unfold strconv.Atoi.
  assert (Hc : ¬ (c = "-"%char ∨ c = "+"%char)).
  { intros [-> | ->]; discriminate Hd. }
  rewrite (decide_False (P := c = "-"%char ∨ c = "+"%char)) by exact Hc.
  rewrite Hd. rewrite bool_decide_eq_false_2 by tauto.
  rewrite decide_True by lia. reflexivity.
Qed.

Lemma Atoi_negative (s : string) (n : Z) :
  strconv.digits 0 s = Some n → s ≠ "" → - 2 ^ 63 ≤ - n ≤ 2 ^ 63 - 1 →
  strconv.Atoi ("-" +:+ s) = Some (- n).
Proof.
  intros Hd Hs Hn. change ("-" +:+ s) with (String "-" s).
  unfold strconv.Atoi.
  rewrite decide_True by (left; reflexivity).
  rewrite bool_decide_eq_true_2 by reflexivity.
  destruct s as [| c rest]; [contradiction |].
  rewrite Hd. rewrite decide_True by lia. reflexivity.
Qed.

(** [Atoi] reads back the decimal form of any [int]. *)
Lemma Atoi_pretty (z : Z) :
  - 2 ^ 63 ≤ z ≤ 2 ^ 63 - 1 → strconv.Atoi (pretty z) = Some z.
Proof.
  intros Hz. destruct z as [| q | q].
  - reflexivity.
  - destruct (digits_pretty_N (N.pos q)) as [Hd Hne].
    apply (Atoi_unsigned _ (Z.pos q)); [exact Hd | exact Hne | lia].
  - destruct (digits_pretty_N (N.pos q)) as [Hd Hne].
    change (pretty (Z.neg q)) with ("-" +:+ pretty (N.pos q)).
    change (Z.neg q) with (- Z.of_N (N.pos q)).
    apply Atoi_negative; [exact Hd | exact Hne |].
    change (Z.of_N (N.pos q)) with (Z.pos q). lia.
Qed.

End strconv_properties.

Section grpclog_properties.
Import golang grpclog.

Lemma Sprint_string (s : string) : fmt.Sprint [IString s] = s.
Proof. unfold fmt.Sprint. simpl. apply append_empty_r. Qed.

Lemma needs_newline_false (s : string) :
  log.needs_newline s = false ↔ ∃ s', s = s' +:+ fmt.newline.
Proof.
  induction s as [| c s IH].
  - split; [discriminate |]. intros [[| c' s'] H]; discriminate H.
  - destruct s as [| c2 s2].
    + simpl. split.
      * intros H. apply negb_false_iff, bool_decide_eq_true in H as ->.
        exists "". reflexivity.
      * intros [[| c' s'] H].
        -- injection H as ->. reflexivity.
        -- injection H as _ H. destruct s'; discriminate H.
    + change (log.needs_newline (String c (String c2 s2)))
        with (log.needs_newline (String c2 s2)).
      rewrite IH. split.
      * intros [s' ->]. exists (String c s'). reflexivity.
      * intros [[| c' s'] H]; [discriminate H |].
        injection H as _ H. exists s'. exact H.
Qed.

(** X14.  A logger made by [NewLoggerV2WithVerbosity] writes an info
    line to the info writer; a warning line to the info writer and then
    the warning writer; an error line to the info, the warning and then
    the error writer; each time stopping at the first writer that returns
    an error, which the logger drops.  A fatal line goes the way of an
    error line, and then the process exits with status 1.  A writer
    given for several severities gets the line once for each.  The line
    is the severity name, ": ", the date and time, the text, and a
    newline unless the text ends in one. *)
Theorem severity_fan_out (infoW warningW errorW : io.Writer) (v : Z)
    (stamp : string) (args : list iface) (g : loggerT) (text : string)
    (line : string → string) :
  g = NewLoggerV2WithVerbosity infoW warningW errorW v →
  text = fmt.Sprint args →
  (∀ name, line name =
     name +:+ ": " +:+ stamp +:+ text +:+
     (if log.needs_newline text then fmt.newline else "")) →
  Info g stamp args = Done (io.Write infoW (line "INFO")).1 ∧
  Warning g stamp args =
    Done ((io.Write infoW (line "WARNING")).1 ++
          (if (io.Write infoW (line "WARNING")).2
           then (io.Write warningW (line "WARNING")).1 else [])) ∧
  Error g stamp args =
    Done ((io.Write infoW (line "ERROR")).1 ++
          (if (io.Write infoW (line "ERROR")).2
           then (io.Write warningW (line "ERROR")).1 ++
                (if (io.Write warningW (line "ERROR")).2
                 then (io.Write errorW (line "ERROR")).1 else [])
           else [])) ∧
  Fatal g stamp args =
    Exited 1
      ((io.Write infoW (line "FATAL")).1 ++
       (if (io.Write infoW (line "FATAL")).2
        then (io.Write warningW (line "FATAL")).1 ++
             (if (io.Write warningW (line "FATAL")).2
              then (io.Write errorW (line "FATAL")).1 else [])
        else [])) ∧
  (log.needs_newline text = false ↔ ∃ s', text = s' +:+ fmt.newline).
Proof.
  intros -> -> Hline.
  unfold Info, Warning, Error, Fatal, with_logger, then_exit,
    NewLoggerV2WithVerbosity, log.Print, log.Output.
  cbn [m lookup list_lookup app infoLog warningLog errorLog fatalLog
       log.out log.prefix].
  rewrite !Hline.
  change (severityName !!! 0%nat +:+ ": ") with "INFO: ".
  change (severityName !!! 1%nat +:+ ": ") with "WARNING: ".
  change (severityName !!! 2%nat +:+ ": ") with "ERROR: ".
  change (severityName !!! 3%nat +:+ ": ") with "FATAL: ".
  unfold log.line. cbn [io.Write].
  split; [reflexivity |].
  split.
  { destruct (io.Write infoW _) as [t1 [|]];
      destruct (io.Write warningW _) as [t2 [|]];
      cbn; rewrite ?app_nil_r; reflexivity. }
  split.
  { destruct (io.Write infoW _) as [t1 [|]];
      destruct (io.Write warningW _) as [t2 [|]];
      destruct (io.Write errorW _) as [t3 [|]];
      cbn; rewrite ?app_nil_r; reflexivity. }
  split; [| apply needs_newline_false].
  destruct (io.Write infoW _) as [t1 [|]];
    destruct (io.Write warningW _) as [t2 [|]];
    destruct (io.Write errorW _) as [t3 [|]];
    cbn; rewrite ?app_nil_r; reflexivity.
Qed.

Lemma severity_fan_out_witness :
  Info (NewLoggerV2 io.Stderr io.Stderr io.Stderr) "T " [IString "x"] =
    Done [(2%N, "INFO: T x" +:+ fmt.newline)] ∧
  Warning (NewLoggerV2 (io.Broken 1 4) io.Stderr io.Stderr) "T "
    [IString "x"] = Done [(1%N, "WARN")] ∧
  Error (NewLoggerV2 io.Stderr io.Stderr io.Stderr) "T " [IString "x"] =
    Done [(2%N, "ERROR: T x" +:+ fmt.newline);
          (2%N, "ERROR: T x" +:+ fmt.newline);
          (2%N, "ERROR: T x" +:+ fmt.newline)] ∧
  Fatal (NewLoggerV2 io.Discard (io.Broken 1 0) io.Stderr) "T "
    [IString "x"] = Exited 1 [(1%N, "")].
Proof.
  split; [| split; [| split]].
  - apply (severity_fan_out io.Stderr io.Stderr io.Stderr 0 "T "
             [IString "x"] _ "x"
             (λ name, name +:+ ": " +:+ "T " +:+ "x" +:+ fmt.newline));
      reflexivity.
  - apply (severity_fan_out (io.Broken 1 4) io.Stderr io.Stderr 0 "T "
             [IString "x"] _ "x"
             (λ name, name +:+ ": " +:+ "T " +:+ "x" +:+ fmt.newline));
      reflexivity.
  - apply (severity_fan_out io.Stderr io.Stderr io.Stderr 0 "T "
             [IString "x"] _ "x"
             (λ name, name +:+ ": " +:+ "T " +:+ "x" +:+ fmt.newline));
      reflexivity.
  - apply (severity_fan_out io.Discard (io.Broken 1 0) io.Stderr 0 "T "
             [IString "x"] _ "x"
             (λ name, name +:+ ": " +:+ "T " +:+ "x" +:+ fmt.newline));
      reflexivity.
Defined.

(** X15.  The formatting variants are the plain call on the formatted
    text: [Infof(format, a...)] writes what [Info(Sprintf(format, a...))]
    writes and [Infoln(a...)] what [Info(Sprintln(a...))] writes, and so
    for the other three severities, on any logger value. *)
Theorem formatting_variants (g : loggerT) (stamp format : string)
    (a : list iface) :
  Infof g stamp format a = Info g stamp [IString (fmt.Sprintf format a)] ∧
  Infoln g stamp a = Info g stamp [IString (fmt.Sprintln a)] ∧
  Warningf g stamp format a =
    Warning g stamp [IString (fmt.Sprintf format a)] ∧
  Warningln g stamp a = Warning g stamp [IString (fmt.Sprintln a)] ∧
  Errorf g stamp format a = Error g stamp [IString (fmt.Sprintf format a)] ∧
  Errorln g stamp a = Error g stamp [IString (fmt.Sprintln a)] ∧
  Fatalf g stamp format a = Fatal g stamp [IString (fmt.Sprintf format a)] ∧
  Fatalln g stamp a = Fatal g stamp [IString (fmt.Sprintln a)].
Proof.
  unfold Infof, Infoln, Info, Warningf, Warningln, Warning, Errorf, Errorln,
    Error, Fatalf, Fatalln, Fatal, with_logger, log.Printf, log.Println,
    log.Print.
  rewrite !Sprint_string. repeat split.
Qed.

Lemma newLoggerV2_writers (getenv : string → string) (level : string) :
  getenv "GRPC_GO_LOG_SEVERITY_LEVEL" = level →
  m (newLoggerV2 getenv) =
  m (NewLoggerV2
       (if bool_decide (level ∈ ["INFO"; "info"]) then io.Stderr
        else io.Discard)
       (if bool_decide (level ∈ ["WARNING"; "warning"]) then io.Stderr
        else io.Discard)
       (if bool_decide (level ∈ [""; "ERROR"; "error"]) then io.Stderr
        else io.Discard)).
Proof.
  intros Hlevel. unfold newLoggerV2. rewrite Hlevel.
  destruct (bool_decide (level ∈ [""; "ERROR"; "error"])) eqn:He.
  - apply bool_decide_eq_true in He.
    assert (level = "" ∨ level = "ERROR" ∨ level = "error") as Hcases.
    { rewrite !elem_of_cons in He. rewrite elem_of_nil in He. tauto. }
    destruct Hcases as [-> | [-> | ->]]; reflexivity.
  - destruct (bool_decide (level ∈ ["WARNING"; "warning"])) eqn:Hw.
    + apply bool_decide_eq_true in Hw.
      assert (level = "WARNING" ∨ level = "warning") as Hcases.
      { rewrite !elem_of_cons in Hw. rewrite elem_of_nil in Hw. tauto. }
      destruct Hcases as [-> | ->]; reflexivity.
    + destruct (bool_decide (level ∈ ["INFO"; "info"])); reflexivity.
Qed.

(** X16.  The logger that [newLoggerV2] makes from the environment writes
    to standard error every line at or above the level that
    GRPC_GO_LOG_SEVERITY_LEVEL names, once, and nothing below it: with
    "INFO" or "info" every line; with "WARNING" or "warning" no info
    line; with "ERROR", "error" or no value only error and fatal lines. *)
Theorem severity_level_threshold (getenv : string → string)
    (stamp : string) (args : list iface) (g : loggerT) :
  g = newLoggerV2 getenv →
  (getenv "GRPC_GO_LOG_SEVERITY_LEVEL" ∈ ["INFO"; "info"] →
   Info g stamp args =
     Done [(2%N, log.line "INFO: " stamp (fmt.Sprint args))] ∧
   Warning g stamp args =
     Done [(2%N, log.line "WARNING: " stamp (fmt.Sprint args))] ∧
   Error g stamp args =
     Done [(2%N, log.line "ERROR: " stamp (fmt.Sprint args))] ∧
   Fatal g stamp args =
     Exited 1 [(2%N, log.line "FATAL: " stamp (fmt.Sprint args))]) ∧
  (getenv "GRPC_GO_LOG_SEVERITY_LEVEL" ∈ ["WARNING"; "warning"] →
   Info g stamp args = Done [] ∧
   Warning g stamp args =
     Done [(2%N, log.line "WARNING: " stamp (fmt.Sprint args))] ∧
   Error g stamp args =
     Done [(2%N, log.line "ERROR: " stamp (fmt.Sprint args))] ∧
   Fatal g stamp args =
     Exited 1 [(2%N, log.line "FATAL: " stamp (fmt.Sprint args))]) ∧
  (getenv "GRPC_GO_LOG_SEVERITY_LEVEL" ∈ [""; "ERROR"; "error"] →
   Info g stamp args = Done [] ∧
   Warning g stamp args = Done [] ∧
   Error g stamp args =
     Done [(2%N, log.line "ERROR: " stamp (fmt.Sprint args))] ∧
   Fatal g stamp args =
     Exited 1 [(2%N, log.line "FATAL: " stamp (fmt.Sprint args))]).
Proof.
  intros ->.
  pose proof (newLoggerV2_writers getenv _ eq_refl) as Hm.
  unfold Info, Warning, Error, Fatal, with_logger. rewrite Hm.
  split; [| split]; intros Hlevel;
    rewrite !elem_of_cons in Hlevel; rewrite elem_of_nil in Hlevel;
    destruct Hlevel as [-> | Hlevel];
    try (destruct Hlevel as [-> | Hlevel]);
    try (destruct Hlevel as [-> | Hlevel]);
    try contradiction; repeat split.
Qed.

Lemma severity_level_threshold_witness :
  Info (newLoggerV2 (samples.env_of "warning" "")) "T " [IString "x"] =
    Done [] ∧
  Warning (newLoggerV2 (samples.env_of "warning" "")) "T " [IString "x"] =
    Done [(2%N, log.line "WARNING: " "T " (fmt.Sprint [IString "x"]))] ∧
  Error (newLoggerV2 (samples.env_of "warning" "")) "T " [IString "x"] =
    Done [(2%N, log.line "ERROR: " "T " (fmt.Sprint [IString "x"]))] ∧
  Fatal (newLoggerV2 (samples.env_of "warning" "")) "T " [IString "x"] =
    Exited 1 [(2%N, log.line "FATAL: " "T " (fmt.Sprint [IString "x"]))].
Proof.
  apply (proj1 (proj2 (severity_level_threshold
                         (samples.env_of "warning" "") "T " [IString "x"]
                         _ eq_refl))).
  apply list_elem_of_further. apply list_elem_of_here.
Defined.

(** X17.  Any other value of GRPC_GO_LOG_SEVERITY_LEVEL silences the
    logger: no call writes anything, and a fatal call still ends the
    process. *)
Theorem unknown_severity_level_is_silent (getenv : string → string)
    (stamp : string) (args : list iface) (g : loggerT) :
  g = newLoggerV2 getenv →
  getenv "GRPC_GO_LOG_SEVERITY_LEVEL" ∉
    [""; "ERROR"; "error"; "WARNING"; "warning"; "INFO"; "info"] →
  Info g stamp args = Done [] ∧
  Warning g stamp args = Done [] ∧
  Error g stamp args = Done [] ∧
  Fatal g stamp args = Exited 1 [].
Proof.
  intros -> Hlevel.
  pose proof (newLoggerV2_writers getenv _ eq_refl) as Hm.
  unfold Info, Warning, Error, Fatal, with_logger. rewrite Hm.
  rewrite !elem_of_cons, elem_of_nil in Hlevel.
  rewrite !bool_decide_eq_false_2;
    [repeat split | ..];
    rewrite !elem_of_cons, elem_of_nil; tauto.
Qed.

Lemma unknown_severity_level_is_silent_witness :
  Info (newLoggerV2 (samples.env_of "DEBUG" "")) "T " [IString "x"] =
    Done [] ∧
  Warning (newLoggerV2 (samples.env_of "DEBUG" "")) "T " [IString "x"] =
    Done [] ∧
  Error (newLoggerV2 (samples.env_of "DEBUG" "")) "T " [IString "x"] =
    Done [] ∧
  Fatal (newLoggerV2 (samples.env_of "DEBUG" "")) "T " [IString "x"] =
    Exited 1 [].
Proof.
  apply (unknown_severity_level_is_silent (samples.env_of "DEBUG" "") "T "
           [IString "x"] _ eq_refl).
  vm_compute. intros H. repeat (apply elem_of_cons in H as [H | H];
    [discriminate H |]). apply elem_of_nil in H. exact H.
Defined.

Lemma newLoggerV2_verbosity (getenv : string → string) :
  v (newLoggerV2 getenv) =
  default 0%Z (strconv.Atoi (getenv "GRPC_GO_LOG_VERBOSITY_LEVEL")).
Proof.
  unfold newLoggerV2.
  destruct (bool_decide _); [| destruct (bool_decide _);
    [| destruct (bool_decide _)]];
    destruct (strconv.Atoi _); reflexivity.
Qed.

(** X18.  The verbosity of the logger of [newLoggerV2] is the number that
    GRPC_GO_LOG_VERBOSITY_LEVEL holds in decimal, and 0 when the variable
    holds no number (not set, or malformed, or out of the range of
    [int]): [V(l)] says whether [l] is at most that; the loggers of
    [NewLoggerV2] have verbosity 0. *)
Theorem verbosity_from_environment (getenv : string → string) (n l : Z)
    (infoW warningW errorW : io.Writer) :
  ((- 2 ^ 63 ≤ n ≤ 2 ^ 63 - 1)%Z →
   getenv "GRPC_GO_LOG_VERBOSITY_LEVEL" = pretty n →
   V (newLoggerV2 getenv) l = bool_decide (l ≤ n)%Z) ∧
  (strconv.Atoi (getenv "GRPC_GO_LOG_VERBOSITY_LEVEL") = None →
   V (newLoggerV2 getenv) l = bool_decide (l ≤ 0)%Z) ∧
  (getenv "GRPC_GO_LOG_VERBOSITY_LEVEL" = "" →
   V (newLoggerV2 getenv) l = bool_decide (l ≤ 0)%Z) ∧
  V (NewLoggerV2 infoW warningW errorW) l = bool_decide (l ≤ 0)%Z.
Proof.
  unfold V. rewrite newLoggerV2_verbosity.
  split; [| split; [| split]].
  - intros Hn ->. rewrite (Atoi_pretty n Hn). reflexivity.
  - intros ->. reflexivity.
  - intros ->. reflexivity.
  - reflexivity.
Qed.

Lemma verbosity_from_environment_witness :
  V (newLoggerV2 (samples.env_of "" (pretty 2%Z))) 2 =
    bool_decide (2 ≤ 2)%Z ∧
  V (newLoggerV2 (samples.env_of "" "2x")) 1 = bool_decide (1 ≤ 0)%Z ∧
  V (newLoggerV2 (samples.env_of "" "")) 1 = bool_decide (1 ≤ 0)%Z.
Proof.
  split; [| split].
  - apply (proj1 (verbosity_from_environment
                    (samples.env_of "" (pretty 2%Z)) 2 2
                    io.Discard io.Discard io.Discard)).
    + lia.
    + reflexivity.
  - apply (proj1 (proj2 (verbosity_from_environment
                           (samples.env_of "" "2x") 0 1
                           io.Discard io.Discard io.Discard))).
    reflexivity.
  - apply (proj1 (proj2 (proj2 (verbosity_from_environment
                                  (samples.env_of "" "") 0 1
                                  io.Discard io.Discard io.Discard)))).
    reflexivity.
Defined.

End grpclog_properties.
